(** * Speliuk: a shallow embedding of the spelling-correction pipeline

    The development follows [src/speliuk/correct.py] (class [Speliuk]) and
    [src/scripts/evaluate.py] (function [main]).

    The pretrained artefacts and the third-party libraries the Python code
    calls into (the KenLM scorer, the SymSpell dictionary, the two spaCy
    pipelines, [Doc.char_span], the Unicode tables behind [str.lower] and
    [str.isdigit], the markup parser of [ua_gec.AnnotatedText], the
    subprocesses of the evaluation script) are variables of a section:
    every theorem holds for all of them. *)

From Stdlib Require Import List Bool Arith ZArith NArith Lia.
From Stdlib Require Ascii String.
Import String.StringSyntax.
Delimit Scope string_scope with string.
From Stdlib Require Import Permutation Sorted.
Import ListNotations.

Set Implicit Arguments.

(** ** Python values *)

(** A Python [str] is a sequence of code points. *)
Definition char : Type := N.
Definition str : Type := list char.

(** A string literal of the source. *)
Definition lit (s : String.string) : str :=
  map Ascii.N_of_ascii (String.list_ascii_of_string s).
Arguments lit s%_string.

Fixpoint str_eqb (a b : str) : bool :=
  match a, b with
  | [], [] => true
  | x :: a', y :: b' => N.eqb x y && str_eqb a' b'
  | _, _ => false
  end.

(** [s.startswith(p)] *)
Fixpoint startswith (p s : str) : bool :=
  match p, s with
  | [], _ => true
  | x :: p', y :: s' => N.eqb x y && startswith p' s'
  | _ :: _, [] => false
  end.

(** [old in s] replaced by [new], leftmost first and without overlap, as
    [s.replace(old, new)] does for a non-empty [old].  [skip] counts the
    characters of a match that are still to be consumed. *)
Fixpoint replace_from (old new : str) (skip : nat) (s : str) : str :=
  match s with
  | [] => []
  | c :: s' =>
      match skip with
      | S k => replace_from old new k s'
      | O =>
          if startswith old s
          then new ++ replace_from old new (length old - 1) s'
          else c :: replace_from old new 0 s'
      end
  end.

Definition replace (old new s : str) : str := replace_from old new 0 s.

(** [sep.join(xs)] *)
Fixpoint join (sep : str) (xs : list str) : str :=
  match xs with
  | [] => []
  | x :: rest =>
      match rest with
      | [] => x
      | _ :: _ => x ++ sep ++ join sep rest
      end
  end.

(** [l[a:b]] for [0 <= a]; indices beyond the end are clamped. *)
Definition slice {A : Type} (l : list A) (a b : nat) : list A :=
  firstn (b - a) (skipn a l).

(** Exceptions the modelled code can raise. *)
Inductive exn : Type :=
| AttributeError
| IndexError
| KeyError
| ValueError
| OverlapError
| FileNotFoundError
| CalledProcessError.

Inductive result (A : Type) : Type :=
| Ok (a : A)
| Err (e : exn).
Arguments Ok {A} a.
Arguments Err {A} e.

Definition bind {A B : Type} (m : result A) (k : A -> result B) : result B :=
  match m with
  | Ok a => k a
  | Err e => Err e
  end.

Notation "x <- m ;; k" := (bind m (fun x => k))
  (at level 61, m at next level, right associativity).

(** [xs[0]] *)
Definition getitem0 {A : Type} (xs : list A) : result A :=
  match xs with
  | x :: _ => Ok x
  | [] => Err IndexError
  end.

(** Attribute access on a value that may be [None]. *)
Definition deref {A : Type} (x : option A) : result A :=
  match x with
  | Some a => Ok a
  | None => Err AttributeError
  end.

(** ** Dictionaries that remember insertion order

    [_kenlm_rerank] sorts [scores.items()] and reads the first key of the
    result, so the order of the keys matters: a dictionary is an
    association list with distinct keys, in insertion order. *)
Definition dict : Type := list (str * Z).

(** [d[k] = v]: an existing key keeps its position. *)
Fixpoint dict_set (d : dict) (k : str) (v : Z) : dict :=
  match d with
  | [] => [(k, v)]
  | (k', v') :: rest =>
      if str_eqb k' k then (k', v) :: rest else (k', v') :: dict_set rest k v
  end.

(** [d[k]] *)
Fixpoint dict_get (d : dict) (k : str) : result Z :=
  match d with
  | [] => Err KeyError
  | (k', v) :: rest => if str_eqb k' k then Ok v else dict_get rest k
  end.

Definition keys (d : dict) : list str := map fst d.

(** [sorted(items, key=lambda item: item[1], reverse=True)]: a stable sort,
    equal scores keep the order of the input. *)
Fixpoint insert_desc (x : str * Z) (l : dict) : dict :=
  match l with
  | [] => [x]
  | y :: rest =>
      if (snd y <=? snd x)%Z then x :: l else y :: insert_desc x rest
  end.

Definition sorted_desc (l : dict) : dict := fold_right insert_desc [] l.

(** Every key of the dictionary carries the score [f] gives it. *)
Definition scored_by (f : str -> Z) (d : dict) : Prop :=
  Forall (fun kv => snd kv = f (fst kv)) d.

(** The order of a dictionary sorted by descending score. *)
Definition desc (a b : str * Z) : Prop := (snd b <= snd a)%Z.

(** ** spaCy documents *)

Record Token : Type := {
  tok_text : str;          (* token.text *)
  tok_whitespace : bool;   (* token.whitespace_ is " " *)
  tok_ent_type : str       (* token.ent_type_ *)
}.

(** A span of a document: the token range [span_start, span_end) and a label. *)
Record Span : Type := {
  span_start : nat;
  span_end : nat;
  span_label : str
}.

Record Doc : Type := {
  tokens : list Token;
  speliuk_errors : list (option Span)   (* doc.spans["speliuk_errors"] *)
}.

(** An entity of the error-detection document, as [_set_error_spans] reads it. *)
Record Ent : Type := {
  ent_start_char : nat;
  ent_end_char : nat;
  ent_label : str
}.

Definition text_with_ws (t : Token) : str :=
  tok_text t ++ (if tok_whitespace t then lit " " else []).

(** [doc.text] *)
Definition doc_text (doc : Doc) : str :=
  concat (map text_with_ws (tokens doc)).

(** [doc[i].idx]: the character offset of token [i]. *)
Definition token_idx (doc : Doc) (i : nat) : nat :=
  length (concat (map text_with_ws (firstn i (tokens doc)))).

(** [span.text]: the tokens of the span with their whitespace, without the
    whitespace that trails the last one. *)
Fixpoint tokens_text (ts : list Token) : str :=
  match ts with
  | [] => []
  | t :: rest =>
      match rest with
      | [] => tok_text t
      | _ :: _ => text_with_ws t ++ tokens_text rest
      end
  end.

Definition span_tokens (doc : Doc) (span : Span) : list Token :=
  slice (tokens doc) (span_start span) (span_end span).

Definition span_text (doc : Doc) (span : Span) : str :=
  tokens_text (span_tokens doc span).

(** [span.start_char]: the offset of the first token of the span. *)
Definition span_start_char (doc : Doc) (span : Span) : nat :=
  token_idx doc (span_start span).

(** [span.end_char]: the offset just after the last token of the span, which
    is where the text of the span ends. *)
Definition span_end_char (doc : Doc) (span : Span) : nat :=
  span_start_char doc span + length (span_text doc span).

(** ** Annotated text *)

Record Annotation : Type := {
  ann_start : nat;
  ann_end : nat;
  ann_source_text : str;
  ann_suggestions : list str
}.

Record AnnotatedText : Type := {
  at_text : str;
  at_annotations : list Annotation
}.

Record Correction : Type := {
  corrected_text : str;
  annotations : list Annotation
}.

(** [annotation.top_suggestion] *)
Definition top_suggestion (a : Annotation) : option str :=
  hd_error (ann_suggestions a).

Definition ranges_overlap (s e : nat) (a : Annotation) : bool :=
  (s <? ann_end a) && (ann_start a <? e).

(** Modelled from the spec: [ua_gec.AnnotatedText.annotate] belongs to an
    external library whose source is not part of the repository.  It records
    the edit (span bounds, original text, chosen correction); the library
    refuses a range that ends before it starts and a range that overlaps a
    recorded one. *)
Definition annotate (a : AnnotatedText) (start end_ : nat) (correct_value : str)
  : result AnnotatedText :=
  if end_ <? start then Err ValueError
  else if existsb (ranges_overlap start end_) (at_annotations a)
  then Err OverlapError
  else Ok {| at_text := at_text a;
             at_annotations :=
               at_annotations a ++
               [{| ann_start := start;
                   ann_end := end_;
                   ann_source_text := slice (at_text a) start end_;
                   ann_suggestions := [correct_value] |}] |}.

(** One recorded edit applied to a text: [t[:start] + suggestion + t[end:]]. *)
Definition apply_annotation (a : Annotation) (t : str) : str :=
  match top_suggestion a with
  | Some c => firstn (ann_start a) t ++ c ++ skipn (ann_end a) t
  | None => t
  end.

(** Modelled from the spec: [ua_gec.AnnotatedText.get_corrected_text]
    (external library) reconstructs the fully corrected text; the recorded
    edits are applied from the last one to the first, so that the offsets of
    the edits still to be applied stay valid. *)
Definition get_corrected_text (a : AnnotatedText) : str :=
  fold_right apply_annotation (at_text a) (at_annotations a).

(** Modelled from the spec: [ua_gec.AnnotatedText.get_annotations] (external
    library) exports the list of discrete annotations. *)
Definition get_annotations (a : AnnotatedText) : list Annotation :=
  at_annotations a.


(** Character ranges that follow one another inside a text of [len]
    characters, none starting before [lo]. *)
Fixpoint ascending (len lo : nat) (l : list (nat * nat)) : bool :=
  match l with
  | [] => true
  | (s, e) :: rest =>
      (lo <=? s) && (s <=? e) && (e <=? len) && ascending len e rest
  end.

(** ** SymSpell *)

Inductive Verbosity : Type := TOP | CLOSEST | ALL.

Record SuggestItem : Type := {
  term : str;
  distance : nat;
  count : nat
}.

(** ** The files and processes of the evaluation script *)

(** The content of every file, as text.  The keys are files, not paths: two
    paths may name one file, see [file_of_path] below. *)
Definition files : Type := str -> option str.

Definition write_file (fs : files) (file content : str) : files :=
  fun f => if str_eqb f file then Some content else fs f.

Record World : Type := {
  w_files : files;
  w_calls : list (list str);   (* the commands started so far, oldest first *)
  w_stderr : list str          (* the lines printed to sys.stderr *)
}.

Record Args : Type := {
  corrected : str;
  m2 : str
}.

(** A step of the script: it changes the world and returns or raises. *)
Definition script (A : Type) : Type := World -> World * result A.

Definition script_bind {A B : Type} (m : script A) (k : A -> script B)
  : script B :=
  fun w =>
    match m w with
    | (w', Ok a) => k a w'
    | (w', Err e) => (w', Err e)
    end.

(** Iterating over a file opened in text mode yields its lines.  With the
    default [newline=None] a line ends at ["\n"], ["\r"] or ["\r\n"], and
    the line read ends with ["\n"] whichever it was.  [after_cr] tells that
    the last character read was a ["\r"]. *)
Fixpoint readlines_from (cur : str) (after_cr : bool) (s : str) : list str :=
  match s with
  | [] => match cur with [] => [] | _ :: _ => [rev cur] end
  | c :: s' =>
      if N.eqb c 10 then
        if after_cr then readlines_from cur false s'
        else rev (10%N :: cur) :: readlines_from [] false s'
      else if N.eqb c 13 then rev (10%N :: cur) :: readlines_from [] true s'
      else readlines_from (c :: cur) false s'
  end.

Definition readlines (s : str) : list str := readlines_from [] false s.

(** [tmp / name] *)
Definition path_join (dir name : str) : str := dir ++ lit "/" ++ name.

(** ** A small instance of the collaborators

    A whitespace tokenizer, a three-word dictionary and a table of scores:
    enough to run the pipeline on concrete sentences. *)

Definition mkToken (text : str) (ws : bool) : Token :=
  {| tok_text := text;
     tok_whitespace := ws;
     tok_ent_type := if str_eqb text (lit "Kyiv") then lit "GPE" else [] |}.

Fixpoint ex_tokenize (cur : str) (s : str) : list Token :=
  match s with
  | [] => match cur with [] => [] | _ :: _ => [mkToken (rev cur) false] end
  | c :: s' =>
      if N.eqb c 32 then mkToken (rev cur) true :: ex_tokenize [] s'
      else ex_tokenize (c :: cur) s'
  end.

Definition ex_nlp (text : str) : Doc :=
  {| tokens := ex_tokenize [] text; speliuk_errors := [] |}.

Definition ex_text : str := lit "We liek 5ive cats".
Definition ex_text_ok : str := lit "We like cats".
Definition ex_text_mask : str := lit "a <mask> liek b".

Definition mkEnt (s e : nat) : Ent :=
  {| ent_start_char := s; ent_end_char := e; ent_label := lit "ERROR" |}.

Definition ex_error_detection_pipe (text : str) : list Ent :=
  if str_eqb text ex_text then [mkEnt 3 7; mkEnt 8 12]
  else if str_eqb text ex_text_ok then [mkEnt 3 7]
  else if str_eqb text ex_text_mask then [mkEnt 9 13]
  else [].

(** Strict alignment: both ends on token boundaries. *)
Definition ex_char_span (doc : Doc) (s e : nat) (label : str) : option Span :=
  let idx := seq 0 (length (tokens doc)) in
  let ends j :=
    token_idx doc j + length (tok_text (nth j (tokens doc) (mkToken [] false))) in
  match find (fun i => token_idx doc i =? s) idx,
        find (fun j => ends j =? e) idx with
  | Some i, Some j =>
      Some {| span_start := i; span_end := S j; span_label := label |}
  | _, _ => None
  end.

Definition mkSpan (s e : nat) : Span :=
  {| span_start := s; span_end := e; span_label := lit "ERROR" |}.

Definition ex_lower (s : str) : str :=
  map (fun c => if (N.leb 65 c && N.leb c 90)%bool then (c + 32)%N else c) s.

Definition ex_isdigit (c : char) : bool := (N.leb 48 c && N.leb c 57)%bool.

Definition mkSuggest (t : str) (d : nat) : SuggestItem :=
  {| term := t; distance := d; count := 1 |}.

Definition ex_lookup (token : str) (v : Verbosity) (max_edit_distance : nat)
  (transfer_casing : bool) : list SuggestItem :=
  if str_eqb token (lit "liek")
  then [mkSuggest (lit "lied") 1; mkSuggest (lit "like") 1]
  else if str_eqb token (lit "like") then [mkSuggest (lit "like") 0]
  else [].

Definition ex_score (s : str) : Z :=
  if str_eqb s (lit "we like 5ive cats") then (-3)%Z
  else if str_eqb s (lit "we lied 5ive cats") then (-7)%Z
  else if str_eqb s (lit "we liek 5ive cats") then (-9)%Z
  else if str_eqb s (lit "we like cats") then (-2)%Z
  else (-20)%Z.

Definition ex_parse (text : str) : str * list Annotation := (text, []).

Definition ex_tmp : str := lit "/tmp".

Definition ex_run (cmd : list str) (fs : files) : option (Z * files) :=
  Some (0%Z, fs).

Definition ex_file_of_path (path : str) : str := path.

Definition ex_linesep : str := [10%N].

(** A second name of the temporary source file. *)
Definition ex_alias_of_path (path : str) : str :=
  if str_eqb path (lit "/data/gold.m2") then lit "/tmp/unlp.source.tok"
  else path.

(** A document whose first token spans two words. *)
Definition ex_host_doc : Doc :=
  {| tokens := [mkToken (lit "We liek") true; mkToken (lit "5ive") true;
                mkToken (lit "cats") false];
     speliuk_errors := [] |}.



Definition ex_m2 : str :=
  lit "S We liek cats
A 1 2|||Spelling|||like|||REQUIRED|||-NONE-|||0

S Fine
".

Definition ex_args : Args :=
  {| corrected := lit "out.txt"; m2 := lit "gold.m2" |}.

Definition ex_world : World :=
  {| w_files := fun p => if str_eqb p (lit "gold.m2") then Some ex_m2 else None;
     w_calls := [];
     w_stderr := [] |}.

Section Speliuk.

Set Default Proof Using "Type".

(** ** The collaborators of the pipeline *)

(** [self.kenlm_scorer.score]: a log-probability.  The code only compares
    scores ([==] and the order used by [sorted]), so a score is modelled by
    an integer. *)
Variable kenlm_score : str -> Z.

(** [self.sym_spell.lookup(phrase, verbosity, max_edit_distance, transfer_casing)] *)
Variable sym_spell_lookup : str -> Verbosity -> nat -> bool -> list SuggestItem.

(** [self.nlp]: the tokens of the main pipeline, with their entity types. *)
Variable nlp : str -> Doc.

(** [self.error_detection_pipe(text).ents] *)
Variable error_detection_pipe : str -> list Ent.

(** [doc.char_span(start_idx, end_idx, label)]: [None] when the characters
    do not map to token boundaries. *)
Variable char_span : Doc -> nat -> nat -> str -> option Span.

(** [str.lower] and [str.isdigit] (Unicode tables). *)
Variable lower : str -> str.
Variable isdigit : char -> bool.

(** The constructor of [ua_gec.AnnotatedText] reads inline annotation markup
    out of its argument: it yields the text without the markup and the
    annotations the markup stands for. *)
Variable parse_annotated : str -> str * list Annotation.

(** [tempfile.gettempdir()]. *)
Variable gettempdir : str.

(** [subprocess.run(cmd)]: [None] when the program cannot be started (the
    call raises [FileNotFoundError]); otherwise the exit status of the
    process and the files as it leaves them. *)
Variable subprocess_run : list str -> files -> option (Z * files).

(** The file a path names; [open] works on the file. *)
Variable file_of_path : str -> str.

(** [os.linesep]: what a ["\n"] written to a file in text mode becomes. *)
Variable linesep : str.

(** ** [src/speliuk/correct.py] *)

Definition MASK_TOKEN : str := Eval cbv in lit "<mask>".

Definition _symspell_candidates (token : str) : list str :=
  let suggestions := sym_spell_lookup token CLOSEST 2 true in
  firstn 5 (map term suggestions).

(** The text scored for one candidate, and its score. *)
Definition candidate_text (masked_text candidate : str) : str :=
  replace MASK_TOKEN candidate masked_text.

Definition candidate_score (masked_text candidate : str) : Z :=
  kenlm_score (lower (candidate_text masked_text candidate)).

Definition _kenlm_rerank (masked_text : str) (candidates : list str) : dict :=
  let scores :=
    fold_left
      (fun scores candidate =>
         let text := replace MASK_TOKEN candidate masked_text in
         let prob := kenlm_score (lower text) in
         dict_set scores candidate prob)
      candidates [] in
  sorted_desc scores.

(** The candidates [top_candidate] hands to [_kenlm_rerank]. *)
Definition candidates_of (token : str) : list str :=
  let candidates := _symspell_candidates token in
  if existsb (str_eqb token) candidates then candidates
  else candidates ++ [token].

Definition top_candidate (masked_text token : str) : result str :=
  let candidates := candidates_of token in
  let kenlm_candidates := _kenlm_rerank masked_text candidates in
  top_candidate <- getitem0 (keys kenlm_candidates) ;;
  token_score <- dict_get kenlm_candidates token ;;
  top_score <- dict_get kenlm_candidates top_candidate ;;
  if (token_score =? top_score)%Z then Ok token else Ok top_candidate.

Definition get_masked_text (doc : Doc) (span : Span) (window : nat) : str :=
  let left_start :=
    if window <=? span_start span then span_start span - window else 0 in
  let left_end := span_start span in
  let left_text :=
    join (lit " ") (map tok_text (slice (tokens doc) left_start left_end)) in
  let right_start := span_end span in
  let right_end := span_end span + window in
  let right_text :=
    join (lit " ") (map tok_text (slice (tokens doc) right_start right_end)) in
  left_text ++ (lit " " ++ MASK_TOKEN ++ lit " ") ++ right_text.

(** The list [error_spans] that the loop of [_set_error_spans] builds. *)
Definition error_spans (doc : Doc) : list (option Span) :=
  map (fun span =>
         char_span doc (ent_start_char span) (ent_end_char span)
           (ent_label span))
      (error_detection_pipe (doc_text doc)).

Definition is_span (x : option Span) : bool :=
  match x with
  | Some _ => true
  | None => false
  end.

(** [doc.spans[key] = spans]: spaCy makes a span group of the list and
    raises [ValueError] when an entry is [None] instead of a span. *)
Definition set_spans (doc : Doc) (spans : list (option Span)) : result Doc :=
  if forallb is_span spans
  then Ok {| tokens := tokens doc; speliuk_errors := spans |}
  else Err ValueError.

Definition _set_error_spans (doc : Doc) : result Doc :=
  set_spans doc (error_spans doc).

Definition starts_with_digit (text : str) : bool :=
  match text with
  | c :: _ => isdigit c
  | [] => false
  end.

(** The entity types [_valid_edit] refuses. *)
Definition is_named_entity (span_type : str) : bool :=
  startswith (lit "PER") span_type
  || str_eqb span_type (lit "GPE")
  || str_eqb span_type (lit "ORG").

Definition _valid_edit (doc : Doc) (ent : option Span) : result bool :=
  span <- deref ent ;;
  let text := span_text doc span in
  if starts_with_digit text then Ok false
  else
    first <- getitem0 (slice (tokens doc) (span_start span) (span_end span)) ;;
    let span_type := tok_ent_type first in
    if is_named_entity span_type then Ok false else Ok true.

(** The body of the loop of [correct], over the spans still to visit. *)
Fixpoint correct_loop (doc : Doc) (ents : list (option Span))
  (annotated_text : AnnotatedText) : result AnnotatedText :=
  match ents with
  | [] => Ok annotated_text
  | ent :: rest =>
      valid <- _valid_edit doc ent ;;
      if negb valid then correct_loop doc rest annotated_text
      else
        span <- deref ent ;;
        let start := span_start_char doc span in
        let end_ := span_end_char doc span in
        let error_token := span_text doc span in
        let masked_text := get_masked_text doc span 5 in
        correction <- top_candidate masked_text error_token ;;
        annotated_text' <- annotate annotated_text start end_ correction ;;
        correct_loop doc rest annotated_text'
  end.

Definition correct (text : str) : result Correction :=
  let spacy_doc := nlp text in
  spacy_doc <- _set_error_spans spacy_doc ;;
  let annotated_text :=
    {| at_text := fst (parse_annotated text);
       at_annotations := snd (parse_annotated text) |} in
  annotated_text <- correct_loop spacy_doc (speliuk_errors spacy_doc)
                      annotated_text ;;
  Ok {| corrected_text := get_corrected_text annotated_text;
        annotations := get_annotations annotated_text |}.

(** The span is one the suppression rules reject: its text starts with a
    digit, or its first token carries a person, organization or geopolitical
    entity type. *)
Definition suppressed (doc : Doc) (span : Span) : bool :=
  starts_with_digit (span_text doc span)
  || match span_tokens doc span with
     | first :: _ => is_named_entity (tok_ent_type first)
     | [] => false
     end.

(** The edit [correct] records for a span it accepts. *)
Definition edit_of (doc : Doc) (t : str) (span : Span) : Annotation :=
  let error_token := span_text doc span in
  let correction :=
    match top_candidate (get_masked_text doc span 5) error_token with
    | Ok c => c
    | Err _ => error_token
    end in
  {| ann_start := span_start_char doc span;
     ann_end := span_end_char doc span;
     ann_source_text :=
       slice t (span_start_char doc span) (span_end_char doc span);
     ann_suggestions := [correction] |}.

Definition char_range (doc : Doc) (span : Span) : nat * nat :=
  (span_start_char doc span, span_end_char doc span).


(** The spans that pass the suppression rules. *)
Definition accepted (doc : Doc) (spans : list Span) : list Span :=
  filter (fun span => negb (suppressed doc span)) spans.

(** ** [src/scripts/evaluate.py] *)

Definition source_path : str := path_join gettempdir (lit "unlp.source.tok").
Definition m2_target : str := path_join gettempdir (lit "unlp.target.m2").

Definition errant_parallel (args : Args) : list str :=
  [lit "errant_parallel"; lit "-orig"; source_path; lit "-cor";
   corrected args; lit "-out"; m2_target].

Definition errant_compare (args : Args) : list str :=
  [lit "errant_compare"; lit "-hyp"; m2_target; lit "-ref"; m2 args].

Definition errant_compare_detailed (args : Args) : list str :=
  errant_compare args ++ [lit "-ds"; lit "-cat"; lit "3"].

(** [subprocess.run(cmd)]: a command that starts is logged. *)
Definition run (cmd : list str) : script Z :=
  fun w =>
    match subprocess_run cmd (w_files w) with
    | None => (w, Err FileNotFoundError)
    | Some (status, fs) =>
        ({| w_files := fs;
            w_calls := w_calls w ++ [cmd];
            w_stderr := w_stderr w |}, Ok status)
    end.

(** [print(line, file=sys.stderr)] *)
Definition print_stderr (line : str) : script unit :=
  fun w =>
    ({| w_files := w_files w;
        w_calls := w_calls w;
        w_stderr := w_stderr w ++ [line] |}, Ok tt).

(** What [out.write] stores for a text written in text mode. *)
Definition encode_newlines (text : str) : str :=
  flat_map (fun c => if N.eqb c 10 then linesep else [c]) text.

(** The source text of an [.m2] file: the lines that start with ["S "],
    without these two characters. *)
Definition source_lines (content : str) : list str :=
  map (skipn 2) (filter (startswith (lit "S ")) (readlines content)).

(** The [with] block of [main]: the [.m2] file is opened, then the source
    file is opened for writing, which empties it; then the lines are read
    and written. *)
Definition extract_source (args : Args) : script unit :=
  fun w =>
    match w_files w (file_of_path (m2 args)) with
    | None => (w, Err FileNotFoundError)
    | Some _ =>
        let fs := write_file (w_files w) (file_of_path source_path) [] in
        let lines :=
          match fs (file_of_path (m2 args)) with
          | Some content => readlines content
          | None => []
          end in
        let written :=
          encode_newlines
            (concat (map (skipn 2) (filter (startswith (lit "S ")) lines))) in
        ({| w_files := write_file fs (file_of_path source_path) written;
            w_calls := w_calls w;
            w_stderr := w_stderr w |}, Ok tt)
    end.

(** The rest of [main]: the three commands. *)
Definition align_and_score (args : Args) : script unit :=
  script_bind (run (errant_parallel args)) (fun status =>
  if negb (status =? 0)%Z then fun w => (w, Err CalledProcessError)
  else
    script_bind (print_stderr (lit "Aligned submission: " ++ m2_target))
      (fun _ =>
    script_bind (run (errant_compare args)) (fun _ =>
    script_bind (run (errant_compare_detailed args)) (fun _ =>
    fun w => (w, Ok tt))))).

Definition main (args : Args) : script unit :=
  let tokenized_path := corrected args in
  script_bind (extract_source args) (fun _ => align_and_score args).

(** ** The rest of [src/speliuk/correct.py] *)

(** The truth value of a string: [bool(s)]. *)
Definition truthy (s : str) : bool :=
  match s with
  | [] => false
  | _ :: _ => true
  end.

(** A [pymorphy3] parse, as far as [_is_person] reads it:
    [parse.tag.grammemes]. *)
Record Parse : Type := {
  grammemes : list str
}.

(** [any(g for g in named_grammemes if g in parse.tag.grammemes)]: the
    generator yields the grammemes themselves and [any] tests their truth
    value. *)
Definition _is_person (parse : Parse) : bool :=
  let named_grammemes := [lit "Name"; lit "Patr"; lit "Surn"] in
  existsb truthy
    (filter (fun g => existsb (str_eqb g) (grammemes parse)) named_grammemes).

(** [label=annotation.top_suggestion] *)
Definition suggestion_label (a : Annotation) : str :=
  match top_suggestion a with
  | Some c => c
  | None => []
  end.

(** [CorrectionPipe.__call__]: the document with its ["speliuk_errors"]
    spans, and the value of its [speliuk_corrected] extension. *)
Definition CorrectionPipe__call__ (doc : Doc) : result (Doc * str) :=
  correction <- correct (doc_text doc) ;;
  let speliuk_corrected := corrected_text correction in
  let spans :=
    map (fun annotation =>
           char_span doc (ann_start annotation) (ann_end annotation)
             (suggestion_label annotation))
        (annotations correction) in
  doc <- set_spans doc spans ;;
  Ok (doc, speliuk_corrected).

(** A line as iteration over a text file yields it when it is not the last
    one: it ends with its newline and holds no other line end. *)
Definition terminated (l : str) : Prop :=
  exists body, l = body ++ [10%N] /\ ~ In 10%N body /\ ~ In 13%N body.

(** The three commands of [main], in the order it runs them. *)
Definition commands (args : Args) : list (list str) :=
  [errant_parallel args; errant_compare args; errant_compare_detailed args].

Ltac eval_closed_eqb :=
  repeat match goal with
         | |- context [N.eqb (N.pos ?p) (N.pos ?q)] =>
             let v := eval vm_compute in (N.eqb (N.pos p) (N.pos q)) in
             change (N.eqb (N.pos p) (N.pos q)) with v
         end.

(** ** Lemmas on strings and lists *)

Lemma str_eqb_eq (a b : str) : str_eqb a b = true <-> a = b.
Proof.
  revert b; induction a as [|x a IH]; intros [|y b]; simpl;
    try (split; [discriminate | discriminate]); try (split; reflexivity).
  rewrite andb_true_iff, N.eqb_eq, IH.
  split; [intros [-> ->]; reflexivity | intros H; inversion H; auto].
Qed.

Lemma str_eqb_refl (a : str) : str_eqb a a = true.
Proof. apply str_eqb_eq; reflexivity. Qed.

Lemma str_eqb_neq (a b : str) : str_eqb a b = false <-> a <> b.
Proof.
  rewrite <- str_eqb_eq. destruct (str_eqb a b); split; congruence.
Qed.

Lemma existsb_str_eqb (x : str) (l : list str) :
  existsb (str_eqb x) l = true <-> In x l.
Proof.
  rewrite existsb_exists. split.
  - intros (y & Hy & E). apply str_eqb_eq in E. subst; assumption.
  - intros H. exists x. split; [assumption | apply str_eqb_refl].
Qed.

(** ** Lemmas on ordered dictionaries *)

Lemma dict_set_keys (d : dict) (k : str) (v : Z) (k' : str) :
  In k' (keys (dict_set d k v)) <-> In k' (keys d) \/ k' = k.
Proof.
  induction d as [|[k0 v0] d IH]; simpl.
  - split; [intros [H | []]; auto | intros [[] | H]; auto].
  - destruct (str_eqb k0 k) eqn:E; simpl.
    + apply str_eqb_eq in E. subst.
      split; [intros [H | H]; auto | intros [[H | H] | H]; auto].
    + unfold keys in IH. rewrite IH.
      split; [intros [H | [H | H]]; auto | intros [[H | H] | H]; auto].
Qed.

Lemma dict_set_NoDup (d : dict) (k : str) (v : Z) :
  NoDup (keys d) -> NoDup (keys (dict_set d k v)).
Proof.
  induction d as [|[k0 v0] d IH]; simpl; intros H.
  - constructor; [intros [] | constructor].
  - inversion H as [|? ? Hnin Hnd]; subst.
    destruct (str_eqb k0 k) eqn:E; simpl.
    + constructor; assumption.
    + constructor; [| apply IH; assumption].
      intros Hin. apply dict_set_keys in Hin. destruct Hin as [Hin | ->].
      * apply Hnin, Hin.
      * apply str_eqb_neq in E. apply E. reflexivity.
Qed.

Lemma dict_set_scored (f : str -> Z) (d : dict) (k : str) :
  scored_by f d -> scored_by f (dict_set d k (f k)).
Proof.
  unfold scored_by. induction d as [|[k0 v0] d IH]; simpl; intros H.
  - constructor; [reflexivity | constructor].
  - inversion H as [|? ? H0 Hd]; subst. simpl in H0.
    destruct (str_eqb k0 k) eqn:E.
    + apply str_eqb_eq in E. subst. constructor; [reflexivity | assumption].
    + constructor; [assumption | apply IH; assumption].
Qed.

Lemma dict_get_scored (f : str -> Z) (d : dict) (k : str) :
  scored_by f d -> In k (keys d) -> dict_get d k = Ok (f k).
Proof.
  unfold scored_by. induction d as [|[k0 v0] d IH]; simpl; intros H Hin.
  - contradiction.
  - inversion H as [|? ? H0 Hd]; subst. simpl in H0.
    destruct (str_eqb k0 k) eqn:E.
    + apply str_eqb_eq in E. subst. reflexivity.
    + destruct Hin as [-> | Hin].
      * rewrite str_eqb_refl in E. discriminate.
      * apply IH; assumption.
Qed.

Lemma fold_dict_set (f : str -> Z) (cs : list str) (d : dict) :
  NoDup (keys d) -> scored_by f d ->
  let d' := fold_left (fun acc c => dict_set acc c (f c)) cs d in
  NoDup (keys d') /\ scored_by f d' /\
  (forall k, In k (keys d') <-> In k (keys d) \/ In k cs).
Proof.
  revert d. induction cs as [|c cs IH]; simpl; intros d Hnd Hsc.
  - repeat split; try assumption; [auto | intros [H | []]; assumption].
  - destruct (IH (dict_set d c (f c))) as (H1 & H2 & H3).
    + apply dict_set_NoDup; assumption.
    + apply dict_set_scored; assumption.
    + repeat split; try assumption.
      * intros Hk. apply H3 in Hk. rewrite dict_set_keys in Hk.
        destruct Hk as [[Hk | Hk] | Hk]; auto.
      * intros Hk. apply H3. rewrite dict_set_keys.
        destruct Hk as [Hk | [Hk | Hk]]; auto.
Qed.

Lemma insert_desc_perm (x : str * Z) (l : dict) :
  Permutation (insert_desc x l) (x :: l).
Proof.
  induction l as [|y l IH]; simpl.
  - apply Permutation_refl.
  - destruct (snd y <=? snd x)%Z.
    + apply Permutation_refl.
    + eapply perm_trans; [apply perm_skip, IH | apply perm_swap].
Qed.

Lemma sorted_desc_perm (l : dict) : Permutation (sorted_desc l) l.
Proof.
  induction l as [|x l IH]; simpl.
  - constructor.
  - eapply perm_trans; [apply insert_desc_perm | apply perm_skip, IH].
Qed.

Lemma insert_desc_sorted (x : str * Z) (l : dict) :
  StronglySorted desc l -> StronglySorted desc (insert_desc x l).
Proof.
  induction l as [|y l IH]; simpl; intros H.
  - constructor; constructor.
  - inversion H as [|? ? Hs Hf]; subst.
    destruct (snd y <=? snd x)%Z eqn:E.
    + apply Z.leb_le in E. constructor; [assumption |].
      constructor; [exact E |].
      eapply Forall_impl; [| exact Hf].
      intros z Hz. unfold desc in *. lia.
    + apply Z.leb_gt in E. constructor; [apply IH; assumption |].
      eapply Permutation_Forall.
      * apply Permutation_sym, insert_desc_perm.
      * constructor; [unfold desc; lia | assumption].
Qed.

Lemma sorted_desc_sorted (l : dict) : StronglySorted desc (sorted_desc l).
Proof.
  induction l as [|x l IH]; simpl.
  - constructor.
  - apply insert_desc_sorted, IH.
Qed.

(** The first key of a dictionary sorted by descending score has the
    highest score. *)
Lemma sorted_head_max (f : str -> Z) (d : dict) (k : str) :
  StronglySorted desc d -> scored_by f d -> getitem0 (keys d) = Ok k ->
  forall c, In c (keys d) -> (f c <= f k)%Z.
Proof.
  intros Hs Hsc Hk c Hc. destruct d as [|[k0 v0] d]; simpl in *.
  - discriminate.
  - inversion Hk; subst k0. inversion Hs as [|? ? _ Hf]; subst.
    inversion Hsc as [|? ? H0 Hd]; subst. simpl in H0.
    destruct Hc as [-> | Hc]; [lia |].
    unfold keys in Hc. apply in_map_iff in Hc. destruct Hc as ([c' v'] & E & Hin).
    simpl in E; subst c'.
    rewrite Forall_forall in Hf, Hd.
    specialize (Hf _ Hin). specialize (Hd _ Hin). unfold desc in Hf. simpl in *.
    lia.
Qed.

(** ** Candidate generation and re-ranking *)

Lemma kenlm_rerank_facts (masked_text : str) (candidates : list str) :
  let r := _kenlm_rerank masked_text candidates in
  NoDup (keys r) /\ scored_by (candidate_score masked_text) r /\
  (forall k, In k (keys r) <-> In k candidates) /\
  StronglySorted desc r.
Proof.
  unfold _kenlm_rerank.
  set (f := candidate_score masked_text).
  change (fun scores candidate =>
            let text := replace MASK_TOKEN candidate masked_text in
            let prob := kenlm_score (lower text) in
            dict_set scores candidate prob)
    with (fun acc c => dict_set acc c (f c)).
  destruct (@fold_dict_set f candidates []) as (H1 & H2 & H3).
  - constructor.
  - constructor.
  - set (scores := fold_left (fun acc c => dict_set acc c (f c)) candidates []) in *.
    assert (P : Permutation (sorted_desc scores) scores) by apply sorted_desc_perm.
    cbv zeta. repeat split.
    + unfold keys. eapply Permutation_NoDup; [| exact H1].
      apply Permutation_map, Permutation_sym, P.
    + unfold scored_by. eapply Permutation_Forall; [| exact H2].
      apply Permutation_sym, P.
    + intros Hk. apply (Permutation_in _ (Permutation_map fst P)) in Hk.
      apply H3 in Hk. simpl in Hk. destruct Hk as [[] | Hk]; exact Hk.
    + intros Hk. apply (Permutation_in _ (Permutation_map fst (Permutation_sym P))).
      apply H3. right. assumption.
    + apply sorted_desc_sorted.
Qed.

Lemma token_in_candidates_of (token : str) : In token (candidates_of token).
Proof.
  unfold candidates_of.
  destruct (existsb (str_eqb token) (_symspell_candidates token)) eqn:E.
  - apply existsb_str_eqb, E.
  - apply in_or_app. right. left. reflexivity.
Qed.

Lemma candidates_of_In (token c : str) :
  In c (candidates_of token) <->
  c = token \/ In c (_symspell_candidates token).
Proof.
  unfold candidates_of.
  destruct (existsb (str_eqb token) (_symspell_candidates token)) eqn:E.
  - apply existsb_str_eqb in E. split; [auto | intros [-> | H]; assumption].
  - rewrite in_app_iff. simpl. split; [intros [H | [H | []]]; auto | intros [-> | H]; auto].
Qed.

(** C6: [_kenlm_rerank] gives every candidate, once, the language-model
    score of the lower-cased text in which the candidate stands for the
    placeholder, and returns the candidates by descending score. *)
Theorem kenlm_rerank_spec (masked_text : str) (candidates : list str) :
  let r := _kenlm_rerank masked_text candidates in
  (forall c, In c (keys r) <-> In c candidates) /\
  NoDup (keys r) /\
  (forall c s, In (c, s) r ->
     s = kenlm_score (lower (replace MASK_TOKEN c masked_text))) /\
  (forall c, In c candidates ->
     dict_get r c = Ok (kenlm_score (lower (replace MASK_TOKEN c masked_text)))) /\
  StronglySorted (fun a b => (snd b <= snd a)%Z) r.
Proof.
  destruct (kenlm_rerank_facts masked_text candidates) as (Hnd & Hsc & Hk & Hs).
  cbv zeta. repeat split.
  - apply Hk.
  - apply Hk.
  - exact Hnd.
  - intros c s Hin. unfold scored_by in Hsc. rewrite Forall_forall in Hsc.
    apply (Hsc _ Hin).
  - intros c Hc. apply (dict_get_scored c Hsc). apply Hk, Hc.
  - exact Hs.
Qed.

Lemma top_candidate_eq (masked_text token : str) :
  exists top,
    getitem0 (keys (_kenlm_rerank masked_text (candidates_of token))) = Ok top /\
    top_candidate masked_text token =
      Ok (if (candidate_score masked_text token
              =? candidate_score masked_text top)%Z
          then token else top) /\
    In top (candidates_of token) /\
    forall c, In c (candidates_of token) ->
      (candidate_score masked_text c <= candidate_score masked_text top)%Z.
Proof.
  destruct (kenlm_rerank_facts masked_text (candidates_of token))
    as (Hnd & Hsc & Hk & Hs).
  unfold top_candidate.
  set (r := _kenlm_rerank masked_text (candidates_of token)) in *.
  pose proof (token_in_candidates_of token) as Htok.
  assert (Hmax : forall top, getitem0 (keys r) = Ok top ->
            forall c, In c (candidates_of token) ->
              (candidate_score masked_text c <= candidate_score masked_text top)%Z).
  { intros top Htop c Hc. apply (sorted_head_max Hs Hsc Htop). apply Hk, Hc. }
  assert (Hget : forall c, In c (candidates_of token) ->
            dict_get r c = Ok (candidate_score masked_text c)).
  { intros c Hc. apply (dict_get_scored c Hsc). apply Hk, Hc. }
  destruct (keys r) as [|top ks] eqn:Ek.
  - apply Hk in Htok. destruct Htok.
  - assert (Htop : In top (candidates_of token)) by (apply Hk; left; reflexivity).
    specialize (Hmax top eq_refl).
    exists top. cbn [getitem0 bind].
    rewrite (Hget token Htok). cbn [bind].
    rewrite (Hget top Htop). cbn [bind].
    repeat split; auto.
    destruct (candidate_score masked_text token =? candidate_score masked_text top)%Z;
      reflexivity.
Qed.

Lemma top_candidate_total (masked_text token : str) :
  exists best, top_candidate masked_text token = Ok best.
Proof.
  destruct (top_candidate_eq masked_text token) as (top & _ & E & _).
  eexists. exact E.
Qed.

(** C1: [top_candidate] always returns a candidate; the candidate it
    returns has the highest language-model score of all candidates; it is
    the first entry of the re-ranked dictionary unless the original token has
    that same score, in which case it is the original token. *)
Theorem top_candidate_spec (masked_text token : str) :
  exists top best,
    getitem0 (keys (_kenlm_rerank masked_text (candidates_of token))) = Ok top /\
    top_candidate masked_text token = Ok best /\
    In best (candidates_of token) /\
    (forall c, In c (candidates_of token) ->
       (candidate_score masked_text c <= candidate_score masked_text best)%Z) /\
    (candidate_score masked_text token = candidate_score masked_text top ->
       best = token) /\
    (candidate_score masked_text token <> candidate_score masked_text top ->
       best = top) /\
    ((forall c, In c (candidates_of token) ->
        (candidate_score masked_text c <= candidate_score masked_text token)%Z) ->
     best = token).
Proof.
  destruct (top_candidate_eq masked_text token) as (top & Hg & E & Htop & Hmax).
  pose proof (token_in_candidates_of token) as Htok.
  exists top.
  destruct (candidate_score masked_text token =? candidate_score masked_text top)%Z
    eqn:Eq.
  - apply Z.eqb_eq in Eq. exists token. repeat split; auto.
    + intros c Hc. rewrite Eq. apply Hmax, Hc.
    + intros N. contradiction.
  - apply Z.eqb_neq in Eq. exists top. repeat split; auto.
    + intros N. contradiction.
    + intros Hall. exfalso. apply Eq. apply Z.le_antisymm.
      * apply Hmax, Htok.
      * apply Hall, Htop.
Qed.

(** C5: the candidates [top_candidate] scores are the first five at most of
    the suggestions of the dictionary lookup (closest matches, edit distance
    at most 2, casing transferred from the token) and the original token,
    which is always one of them. *)
Theorem scored_candidates_spec (masked_text token : str) :
  let scored := keys (_kenlm_rerank masked_text (candidates_of token)) in
  _symspell_candidates token =
    firstn 5 (map term (sym_spell_lookup token CLOSEST 2 true)) /\
  length (_symspell_candidates token) <= 5 /\
  candidates_of token =
    (if existsb (str_eqb token) (_symspell_candidates token)
     then _symspell_candidates token
     else _symspell_candidates token ++ [token]) /\
  In token scored /\
  (forall c, In c scored <-> c = token \/ In c (_symspell_candidates token)) /\
  NoDup scored.
Proof.
  destruct (kenlm_rerank_facts masked_text (candidates_of token))
    as (Hnd & _ & Hk & _).
  cbv zeta. repeat split.
  - unfold _symspell_candidates. apply firstn_le_length.
  - apply Hk, token_in_candidates_of.
  - intros H. apply candidates_of_In, Hk, H.
  - intros H. apply Hk, candidates_of_In, H.
  - exact Hnd.
Qed.

(** ** The masked context window *)

Lemma slice_length {A : Type} (l : list A) (a b : nat) :
  length (slice l a b) = Nat.min (b - a) (length l - a).
Proof. unfold slice. rewrite length_firstn, length_skipn. reflexivity. Qed.

Lemma skipn_slice {A : Type} (l : list A) (a b : nat) :
  a <= b -> skipn a l = slice l a b ++ skipn b l.
Proof.
  intros Hab. unfold slice.
  replace (skipn b l) with (skipn (b - a) (skipn a l)).
  - symmetry. apply firstn_skipn.
  - rewrite skipn_skipn. f_equal. lia.
Qed.

Lemma split_at_slice {A : Type} (l : list A) (a b : nat) :
  a <= b -> l = firstn a l ++ slice l a b ++ skipn b l.
Proof.
  intros Hab. rewrite <- (skipn_slice l Hab). symmetry. apply firstn_skipn.
Qed.

(** C4: for a span inside the document, [get_masked_text] joins the
    [min(span.start, 5)] tokens that precede the span, the placeholder and the
    [min(tokens after the span, 5)] tokens that follow it. *)
Theorem get_masked_text_spec (doc : Doc) (span : Span) :
  span_start span <= span_end span ->
  span_end span <= length (tokens doc) ->
  exists before left inside right after : list Token,
    tokens doc = before ++ left ++ inside ++ right ++ after /\
    inside = span_tokens doc span /\
    length (before ++ left) = span_start span /\
    length inside = span_end span - span_start span /\
    length left = Nat.min (span_start span) 5 /\
    length right = Nat.min (length (tokens doc) - span_end span) 5 /\
    length left <= 5 /\ length right <= 5 /\
    get_masked_text doc span 5 =
      join (lit " ") (map tok_text left)
      ++ lit " <mask> "
      ++ join (lit " ") (map tok_text right).
Proof.
  intros Hse Hel.
  set (s := span_start span) in *. set (e := span_end span) in *.
  set (ts := tokens doc) in *.
  set (ls := if 5 <=? s then s - 5 else 0).
  assert (Hls : ls = s - 5).
  { unfold ls. destruct (5 <=? s) eqn:E; [reflexivity |].
    apply Nat.leb_gt in E. lia. }
  exists (firstn ls ts), (slice ts ls s), (slice ts s e),
         (slice ts e (e + 5)), (skipn (e + 5) ts).
  assert (L1 : length (slice ts ls s) = Nat.min s 5)
    by (rewrite slice_length; lia).
  assert (L2 : length (slice ts e (e + 5)) = Nat.min (length ts - e) 5)
    by (rewrite slice_length; lia).
  repeat split.
  - rewrite <- (@skipn_slice _ ts e (e + 5)) by lia.
    rewrite <- (@skipn_slice _ ts s e) by lia.
    apply split_at_slice. lia.
  - rewrite length_app, length_firstn, L1. lia.
  - rewrite slice_length. lia.
  - exact L1.
  - exact L2.
  - rewrite L1. lia.
  - rewrite L2. lia.
Qed.

(** ** The suppression rules *)

Lemma bind_Ok {A B : Type} (m : result A) (k : A -> result B) (b : B) :
  bind m k = Ok b -> exists a, m = Ok a /\ k a = Ok b.
Proof.
  destruct m as [a | e]; simpl; intros H.
  - exists a. split; [reflexivity | exact H].
  - discriminate.
Qed.

Lemma valid_edit_None (doc : Doc) : _valid_edit doc None = Err AttributeError.
Proof. reflexivity. Qed.

Lemma valid_edit_empty (doc : Doc) (span : Span) :
  span_tokens doc span = [] -> _valid_edit doc (Some span) = Err IndexError.
Proof.
  intros H. unfold _valid_edit, span_text. simpl.
  unfold span_tokens in H. unfold span_tokens. rewrite H. reflexivity.
Qed.

Lemma valid_edit_suppressed (doc : Doc) (span : Span) :
  span_tokens doc span <> [] ->
  _valid_edit doc (Some span) = Ok (negb (suppressed doc span)).
Proof.
  intros H. unfold _valid_edit, suppressed. simpl.
  destruct (starts_with_digit (span_text doc span)); [reflexivity |].
  unfold span_tokens in *.
  destruct (slice (tokens doc) (span_start span) (span_end span)) as [|first rest].
  - contradiction.
  - simpl. destruct (is_named_entity (tok_ent_type first)); reflexivity.
Qed.

Lemma span_tokens_nonempty (doc : Doc) (span : Span) :
  span_start span < span_end span ->
  span_start span < length (tokens doc) ->
  span_tokens doc span <> [].
Proof.
  intros H1 H2 E. apply (f_equal (@length Token)) in E.
  unfold span_tokens in E. rewrite slice_length in E. simpl in E. lia.
Qed.

(** C3: for a span with at least one token, [_valid_edit] returns [False]
    exactly when the text of the span starts with a digit or the entity type
    of its first token starts with ["PER"], is ["GPE"] or is ["ORG"], and
    [True] otherwise. *)
Theorem valid_edit_spec (doc : Doc) (span : Span) :
  span_start span < span_end span ->
  span_start span < length (tokens doc) ->
  exists first rest,
    slice (tokens doc) (span_start span) (span_end span) = first :: rest /\
    (_valid_edit doc (Some span) = Ok false <->
       starts_with_digit (span_text doc span) = true \/
       startswith (lit "PER") (tok_ent_type first) = true \/
       tok_ent_type first = lit "GPE" \/
       tok_ent_type first = lit "ORG") /\
    (_valid_edit doc (Some span) = Ok true <->
       ~ (starts_with_digit (span_text doc span) = true \/
          startswith (lit "PER") (tok_ent_type first) = true \/
          tok_ent_type first = lit "GPE" \/
          tok_ent_type first = lit "ORG")).
Proof.
  intros H1 H2.
  pose proof (span_tokens_nonempty doc span H1 H2) as Hne.
  unfold _valid_edit. cbn [deref bind]. unfold span_tokens in Hne.
  destruct (slice (tokens doc) (span_start span) (span_end span))
    as [|first rest] eqn:Es; [contradiction |].
  exists first, rest. split; [reflexivity |].
  unfold is_named_entity. cbn [getitem0 bind].
  rewrite <- !str_eqb_eq.
  destruct (starts_with_digit (span_text doc span));
  destruct (startswith (lit "PER") (tok_ent_type first));
  destruct (str_eqb (tok_ent_type first) (lit "GPE"));
  destruct (str_eqb (tok_ent_type first) (lit "ORG"));
  cbn [orb];
  (split; split;
   [ intros H; try discriminate H; auto
   | intros H; try reflexivity;
     destruct H as [H | [H | [H | H]]]; discriminate H
   | intros H; try discriminate H;
     intros [N | [N | [N | N]]]; discriminate N
   | intros H; try reflexivity; exfalso; apply H; auto ]).
Qed.

(** ** Spans the pipeline cannot handle *)

Lemma correct_loop_needs_spans (doc : Doc) (ents : list (option Span))
  (a a' : AnnotatedText) :
  correct_loop doc ents a = Ok a' ->
  Forall (fun ent => exists span, ent = Some span /\ span_tokens doc span <> [])
         ents.
Proof.
  revert a. induction ents as [|ent ents IH]; intros a H.
  - constructor.
  - simpl in H. apply bind_Ok in H. destruct H as (valid & Hv & H).
    assert (Hent : exists span, ent = Some span /\ span_tokens doc span <> []).
    { destruct ent as [span |].
      - exists span. split; [reflexivity |]. intros E.
        rewrite (valid_edit_empty doc span E) in Hv. discriminate.
      - rewrite valid_edit_None in Hv. discriminate. }
    constructor; [exact Hent |].
    destruct (negb valid).
    + apply (IH a H).
    + apply bind_Ok in H. destruct H as (span & _ & H).
      apply bind_Ok in H. destruct H as (correction & _ & H).
      apply bind_Ok in H. destruct H as (a1 & _ & H).
      apply (IH a1 H).
Qed.

Lemma set_spans_Ok (doc d : Doc) (spans : list (option Span)) :
  set_spans doc spans = Ok d ->
  d = {| tokens := tokens doc; speliuk_errors := spans |} /\
  Forall (fun x => x <> None) spans.
Proof.
  unfold set_spans. destruct (forallb is_span spans) eqn:E; intros H.
  - inversion H. split; [reflexivity |].
    rewrite forallb_forall in E. apply Forall_forall. intros x Hx N.
    specialize (E x Hx). rewrite N in E. discriminate E.
  - discriminate H.
Qed.

Lemma set_spans_all (doc : Doc) (spans : list Span) :
  set_spans doc (map Some spans) =
    Ok {| tokens := tokens doc; speliuk_errors := map Some spans |}.
Proof.
  unfold set_spans. replace (forallb is_span (map Some spans)) with true.
  - reflexivity.
  - symmetry. apply forallb_forall. intros x Hx. apply in_map_iff in Hx.
    destruct Hx as (span & <- & _). reflexivity.
Qed.

Lemma set_spans_None (doc : Doc) (spans : list (option Span)) :
  In None spans -> set_spans doc spans = Err ValueError.
Proof.
  intros H. unfold set_spans. destruct (forallb is_span spans) eqn:E.
  - rewrite forallb_forall in E. specialize (E None H). discriminate E.
  - reflexivity.
Qed.

(** C8: when [correct] returns, every span of the error-detection model was
    mapped by [char_span] to a span of the main document, and each of these
    spans has at least one token.  A [None] makes the assignment of the
    spans in [_set_error_spans] raise [ValueError], before the loop of
    [correct]; a span without tokens makes [_valid_edit] raise
    [IndexError]. *)
Theorem correct_needs_aligned_spans (text : str) (c : Correction) :
  correct text = Ok c ->
  Forall (fun ent =>
            exists span,
              char_span (nlp text) (ent_start_char ent) (ent_end_char ent)
                (ent_label ent) = Some span /\
              slice (tokens (nlp text)) (span_start span) (span_end span) <> [])
         (error_detection_pipe (doc_text (nlp text))) /\
  (forall other : str,
     Exists (fun ent =>
               char_span (nlp other) (ent_start_char ent) (ent_end_char ent)
                 (ent_label ent) = None)
            (error_detection_pipe (doc_text (nlp other))) ->
     _set_error_spans (nlp other) = Err ValueError /\
     correct other = Err ValueError) /\
  (forall empty : Span,
     slice (tokens (nlp text)) (span_start empty) (span_end empty) = [] ->
     _valid_edit (nlp text) (Some empty) = Err IndexError).
Proof.
  unfold correct. intros H. apply bind_Ok in H. destruct H as (d & Hd & H).
  apply set_spans_Ok in Hd. destruct Hd as (-> & _).
  apply bind_Ok in H. destruct H as (a & H & _).
  apply correct_loop_needs_spans in H. cbn [speliuk_errors] in H.
  unfold error_spans in H. rewrite Forall_map in H.
  split; [| split].
  - eapply Forall_impl; [| exact H].
    intros ent (span & E & Hne). exists span. split; assumption.
  - intros other Hex.
    assert (E : _set_error_spans (nlp other) = Err ValueError).
    { apply set_spans_None. unfold error_spans. apply Exists_exists in Hex.
      destruct Hex as (ent & Hin & Hn). apply in_map_iff. exists ent.
      split; assumption. }
    split; [exact E |]. rewrite E. reflexivity.
  - intros empty He. apply valid_edit_empty. exact He.
Qed.

(** ** The loop of [correct] *)

Lemma ascending_cons (len lo s e : nat) (l : list (nat * nat)) :
  ascending len lo ((s, e) :: l) = true <->
  lo <= s /\ s <= e /\ e <= len /\ ascending len e l = true.
Proof.
  simpl. rewrite !andb_true_iff, !Nat.leb_le.
  split; [intros [[[H1 H2] H3] H4] | intros (H1 & H2 & H3 & H4)]; auto.
Qed.

Lemma ascending_weaken (len lo lo' : nat) (l : list (nat * nat)) :
  lo' <= lo -> ascending len lo l = true -> ascending len lo' l = true.
Proof.
  destruct l as [|[s e] l]; intros Hle H.
  - reflexivity.
  - apply ascending_cons in H. apply ascending_cons.
    destruct H as (H1 & H2 & H3 & H4). repeat split; auto. lia.
Qed.


Lemma no_overlap (s e lo : nat) (anns : list Annotation) :
  Forall (fun x => ann_end x <= lo) anns -> lo <= s ->
  existsb (ranges_overlap s e) anns = false.
Proof.
  intros H Hlo. induction H as [|x anns Hx _ IH]; simpl.
  - reflexivity.
  - rewrite IH, orb_false_r. unfold ranges_overlap.
    apply andb_false_iff. left. apply Nat.ltb_ge. lia.
Qed.

Lemma span_tokens_ext (d1 d2 : Doc) (span : Span) :
  tokens d1 = tokens d2 -> span_tokens d1 span = span_tokens d2 span.
Proof. unfold span_tokens. intros ->. reflexivity. Qed.

Lemma span_text_ext (d1 d2 : Doc) (span : Span) :
  tokens d1 = tokens d2 -> span_text d1 span = span_text d2 span.
Proof. unfold span_text, span_tokens. intros ->. reflexivity. Qed.

Lemma span_start_char_ext (d1 d2 : Doc) (span : Span) :
  tokens d1 = tokens d2 -> span_start_char d1 span = span_start_char d2 span.
Proof. unfold span_start_char, token_idx. intros ->. reflexivity. Qed.

Lemma span_end_char_ext (d1 d2 : Doc) (span : Span) :
  tokens d1 = tokens d2 -> span_end_char d1 span = span_end_char d2 span.
Proof.
  intros E. unfold span_end_char.
  rewrite (span_start_char_ext d1 d2 span E), (span_text_ext d1 d2 span E).
  reflexivity.
Qed.

Lemma get_masked_text_ext (d1 d2 : Doc) (span : Span) (window : nat) :
  tokens d1 = tokens d2 ->
  get_masked_text d1 span window = get_masked_text d2 span window.
Proof. unfold get_masked_text. intros ->. reflexivity. Qed.

Lemma valid_edit_ext (d1 d2 : Doc) (ent : option Span) :
  tokens d1 = tokens d2 -> _valid_edit d1 ent = _valid_edit d2 ent.
Proof.
  intros E. unfold _valid_edit. destruct ent as [span |]; [| reflexivity].
  cbn [deref bind]. rewrite (span_text_ext d1 d2 span E), E. reflexivity.
Qed.

Lemma correct_loop_ext (d1 d2 : Doc) (ents : list (option Span)) :
  tokens d1 = tokens d2 ->
  forall a, correct_loop d1 ents a = correct_loop d2 ents a.
Proof.
  intros E. induction ents as [|ent ents IH]; intros a.
  - reflexivity.
  - cbn [correct_loop]. rewrite (valid_edit_ext d1 d2 ent E).
    destruct (_valid_edit d2 ent) as [valid | e]; [| reflexivity].
    cbn [bind]. destruct (negb valid); [apply IH |].
    destruct ent as [span |]; [| reflexivity]. cbn [deref bind].
    rewrite (span_text_ext d1 d2 span E), (get_masked_text_ext d1 d2 span 5 E),
      (span_start_char_ext d1 d2 span E), (span_end_char_ext d1 d2 span E).
    destruct (top_candidate _ _) as [correction | e]; [| reflexivity].
    cbn [bind]. destruct (annotate _ _ _ _) as [a1 | e]; [| reflexivity].
    cbn [bind]. apply IH.
Qed.

Lemma correct_loop_ok (doc : Doc) (spans : list Span) :
  forall (a : AnnotatedText) (lo : nat),
    Forall (fun span => span_tokens doc span <> []) spans ->
    ascending (length (at_text a)) lo (map (char_range doc) spans) = true ->
    Forall (fun x => ann_end x <= lo) (at_annotations a) ->
    correct_loop doc (map Some spans) a =
      Ok {| at_text := at_text a;
            at_annotations :=
              at_annotations a
              ++ map (edit_of doc (at_text a)) (accepted doc spans) |}.
Proof.
  induction spans as [|span spans IH]; intros a lo Hne Hasc Hann.
  - simpl. rewrite app_nil_r. destruct a; reflexivity.
  - inversion Hne as [|? ? Hspan Hrest]; subst.
    cbn [map] in Hasc. unfold char_range at 1 in Hasc.
    apply ascending_cons in Hasc. destruct Hasc as (H1 & H2 & H3 & H4).
    cbn [map correct_loop]. rewrite (valid_edit_suppressed doc span Hspan).
    cbn [bind]. rewrite negb_involutive. unfold accepted. cbn [filter].
    destruct (suppressed doc span) eqn:Es; cbn [negb].
    + apply (IH a lo Hrest); [| exact Hann].
      apply (@ascending_weaken _ (span_end_char doc span)); [lia | exact H4].
    + cbn [deref bind].
      destruct (top_candidate_total (get_masked_text doc span 5)
                  (span_text doc span)) as (best & Eb).
      rewrite Eb. cbn [bind]. unfold annotate.
      replace (span_end_char doc span <? span_start_char doc span) with false
        by (symmetry; apply Nat.ltb_ge; exact H2).
      rewrite (@no_overlap _ _ lo _ Hann H1). cbn [bind].
      rewrite (IH _ (span_end_char doc span) Hrest).
      * cbn [at_text at_annotations map]. rewrite <- app_assoc.
        unfold edit_of at 2. rewrite Eb. reflexivity.
      * exact H4.
      * cbn [at_annotations]. apply Forall_app. split.
        -- eapply Forall_impl; [| exact Hann]. intros x Hx. simpl in Hx. lia.
        -- constructor; [simpl; lia | constructor].
Qed.


Lemma skipn_app_length {A : Type} (l1 l2 : list A) :
  skipn (length l1) (l1 ++ l2) = l2.
Proof. induction l1 as [|x l1 IH]; simpl; auto. Qed.

Lemma firstn_app_length {A : Type} (l1 l2 : list A) :
  firstn (length l1) (l1 ++ l2) = l1.
Proof. induction l1 as [|x l1 IH]; simpl; [reflexivity | rewrite IH; reflexivity]. Qed.






Lemma correct_ok_edits (text : str) (spans : list Span) :
  parse_annotated text = (text, []) ->
  _set_error_spans (nlp text) =
    Ok {| tokens := tokens (nlp text); speliuk_errors := map Some spans |} ->
  Forall (fun span => span_tokens (nlp text) span <> []) spans ->
  ascending (length text) 0 (map (char_range (nlp text)) spans) = true ->
  correct text =
    Ok {| corrected_text :=
            get_corrected_text
              {| at_text := text;
                 at_annotations :=
                   map (edit_of (nlp text) text) (accepted (nlp text) spans) |};
          annotations :=
            map (edit_of (nlp text) text) (accepted (nlp text) spans) |}.
Proof.
  intros H0 H1 H2 H3. unfold correct. rewrite H1, H0. cbn [bind fst snd].
  rewrite (@correct_loop_ext
             {| tokens := tokens (nlp text); speliuk_errors := map Some spans |}
             (nlp text)) by reflexivity.
  cbn [speliuk_errors].
  rewrite (@correct_loop_ok (nlp text) spans
             {| at_text := text; at_annotations := [] |} 0 H2 H3)
    by constructor.
  cbn [bind at_text at_annotations app]. reflexivity.
Qed.




(** ** Edits that change nothing *)





(** ** Every occurrence of the placeholder is replaced *)

(** No occurrence of the placeholder starts before an occurrence and ends
    inside it: no proper suffix of ["<mask>"] is a prefix of it. *)
Lemma startswith_mask_app (a b : str) :
  a <> [] ->
  startswith MASK_TOKEN (a ++ MASK_TOKEN ++ b) = startswith MASK_TOKEN a.
Proof.
  intros Ha. unfold MASK_TOKEN.
  destruct a as [|x1 [|x2 [|x3 [|x4 [|x5 [|x6 a]]]]]];
    [contradiction | | | | | | reflexivity];
    cbn [startswith app]; eval_closed_eqb; cbn [andb];
    rewrite ?andb_false_r; reflexivity.
Qed.

Lemma startswith_mask_length (s : str) :
  startswith MASK_TOKEN s = true -> 6 <= length s.
Proof.
  unfold MASK_TOKEN.
  destruct s as [|x1 [|x2 [|x3 [|x4 [|x5 [|x6 s]]]]]]; cbn [startswith];
    rewrite ?andb_false_r; intros H; try discriminate H.
  simpl. lia.
Qed.

Lemma replace_from_mask_app (c b a : str) :
  forall k, k <= length a ->
    replace_from MASK_TOKEN c k (a ++ MASK_TOKEN ++ b) =
      replace_from MASK_TOKEN c k a ++ c ++ replace_from MASK_TOKEN c 0 b.
Proof.
  induction a as [|x a IH]; intros k Hk.
  - simpl in Hk. replace k with 0 by lia. unfold MASK_TOKEN. simpl.
    reflexivity.
  - destruct k as [|k].
    + change ((x :: a) ++ MASK_TOKEN ++ b) with (x :: (a ++ MASK_TOKEN ++ b)).
      cbn [replace_from].
      change (x :: (a ++ MASK_TOKEN ++ b)) with ((x :: a) ++ MASK_TOKEN ++ b).
      rewrite startswith_mask_app by discriminate.
      destruct (startswith MASK_TOKEN (x :: a)) eqn:E.
      * apply startswith_mask_length in E. simpl in E.
        rewrite IH by (simpl; lia). rewrite <- app_assoc. reflexivity.
      * rewrite IH by lia. reflexivity.
    + simpl in Hk. cbn [app replace_from]. apply IH. lia.
Qed.

Lemma replace_mask_app (c a b : str) :
  replace MASK_TOKEN c (a ++ MASK_TOKEN ++ b) =
    replace MASK_TOKEN c a ++ c ++ replace MASK_TOKEN c b.
Proof. unfold replace. apply replace_from_mask_app. lia. Qed.

Lemma firstn_snoc {A : Type} (l : list A) (n : nat) (x : A) :
  nth_error l n = Some x -> firstn (S n) l = firstn n l ++ [x].
Proof.
  revert n. induction l as [|y l IH]; intros [|n] H; try discriminate H.
  - simpl in H. inversion H. reflexivity.
  - simpl in H. rewrite !firstn_cons, (IH n H). reflexivity.
Qed.

Lemma slice_snoc {A : Type} (l : list A) (a i : nat) (x : A) :
  a <= i -> nth_error l i = Some x -> slice l a (S i) = slice l a i ++ [x].
Proof.
  intros Ha H. unfold slice. replace (S i - a) with (S (i - a)) by lia.
  apply firstn_snoc. rewrite nth_error_skipn.
  replace (a + (i - a)) with i by lia. exact H.
Qed.

Lemma join_snoc (sep : str) (xs : list str) (x : str) :
  join sep (xs ++ [x]) =
    match xs with
    | [] => []
    | _ :: _ => join sep xs ++ sep
    end ++ x.
Proof.
  induction xs as [|y xs IH].
  - reflexivity.
  - destruct xs as [|z xs].
    + simpl. rewrite <- app_assoc. reflexivity.
    + change (join sep ((y :: z :: xs) ++ [x]))
        with (y ++ sep ++ join sep ((z :: xs) ++ [x])).
      rewrite IH.
      change (join sep (y :: z :: xs)) with (y ++ sep ++ join sep (z :: xs)).
      rewrite <- !app_assoc. reflexivity.
Qed.

Lemma replace_mask_space (c s : str) :
  replace MASK_TOKEN c (lit " " ++ s) = lit " " ++ replace MASK_TOKEN c s.
Proof. reflexivity. Qed.

Lemma rerank_score (masked_text : str) (candidates : list str) (c : str) :
  In c candidates ->
  dict_get (_kenlm_rerank masked_text candidates) c =
    Ok (kenlm_score (lower (replace MASK_TOKEN c masked_text))).
Proof.
  intros Hc.
  destruct (kenlm_rerank_facts masked_text candidates) as (_ & Hsc & Hk & _).
  apply (dict_get_scored c Hsc). apply Hk, Hc.
Qed.

(** C10: the score [_kenlm_rerank] gives a candidate is the score of the
    lower-cased text that has the candidate at every occurrence of
    ["<mask>"] in the masked text.  When the token just before the span is
    itself the text ["<mask>"], the masked text holds the placeholder twice
    in a row and the text scored has the candidate at both places. *)
Theorem mask_replaced_everywhere (doc : Doc) (span : Span) (i : nat)
  (t : Token) (candidates : list str) (c : str) :
  span_start span = S i ->
  nth_error (tokens doc) i = Some t ->
  tok_text t = MASK_TOKEN ->
  In c candidates ->
  exists pre post,
    get_masked_text doc span 5 =
      pre ++ MASK_TOKEN ++ lit " " ++ MASK_TOKEN ++ lit " " ++ post /\
    dict_get (_kenlm_rerank (get_masked_text doc span 5) candidates) c =
      Ok (kenlm_score
            (lower (replace MASK_TOKEN c pre ++ c ++ lit " " ++ c ++ lit " "
                    ++ replace MASK_TOKEN c post))) /\
    forall a b,
      dict_get (_kenlm_rerank (a ++ MASK_TOKEN ++ b) candidates) c =
        Ok (kenlm_score
              (lower (replace MASK_TOKEN c a ++ c ++ replace MASK_TOKEN c b))).
Proof.
  intros Hs Ht Hm Hc.
  assert (Hall : forall a b,
            dict_get (_kenlm_rerank (a ++ MASK_TOKEN ++ b) candidates) c =
              Ok (kenlm_score
                    (lower (replace MASK_TOKEN c a ++ c
                            ++ replace MASK_TOKEN c b)))).
  { intros a b. rewrite (rerank_score _ _ _ Hc), replace_mask_app.
    reflexivity. }
  rewrite (rerank_score _ _ _ Hc).
  unfold get_masked_text. rewrite Hs.
  set (ls := if 5 <=? S i then S i - 5 else 0).
  assert (Hls : ls <= i).
  { unfold ls. destruct (5 <=? S i) eqn:E; [| lia].
    apply Nat.leb_le in E. lia. }
  rewrite (slice_snoc (tokens doc) Hls Ht), map_app. cbn [map].
  rewrite join_snoc, Hm.
  set (pre := match map tok_text (slice (tokens doc) ls i) with
              | [] => []
              | _ :: _ => join (lit " ") (map tok_text (slice (tokens doc) ls i))
                          ++ lit " "
              end).
  set (post := join (lit " ")
                 (map tok_text (slice (tokens doc) (span_end span)
                                  (span_end span + 5)))).
  exists pre, post.
  assert (E : (pre ++ MASK_TOKEN) ++ (lit " " ++ MASK_TOKEN ++ lit " ") ++ post
              = pre ++ MASK_TOKEN ++ lit " " ++ MASK_TOKEN ++ lit " " ++ post).
  { rewrite <- !app_assoc. reflexivity. }
  rewrite E. split; [reflexivity |]. split; [| exact Hall].
  rewrite replace_mask_app.
  change (lit " " ++ MASK_TOKEN ++ lit " " ++ post)
    with ((lit " ") ++ MASK_TOKEN ++ (lit " " ++ post)).
  rewrite replace_mask_app, replace_mask_space.
  change (replace MASK_TOKEN c (lit " ")) with (lit " ").
  rewrite <- ?app_assoc. reflexivity.
Qed.

(** ** The evaluation script *)

Lemma write_file_other (fs : files) (file content f : str) :
  f <> file -> write_file fs file content f = fs f.
Proof.
  intros H. unfold write_file. apply str_eqb_neq in H. rewrite H. reflexivity.
Qed.

Lemma write_file_same (fs : files) (file content : str) :
  write_file fs file content file = Some content.
Proof. unfold write_file. rewrite str_eqb_refl. reflexivity. Qed.

Lemma extract_source_eq (args : Args) (w : World) (content : str) :
  w_files w (file_of_path (m2 args)) = Some content ->
  file_of_path (m2 args) <> file_of_path source_path ->
  extract_source args w =
    ({| w_files :=
          write_file (write_file (w_files w) (file_of_path source_path) [])
            (file_of_path source_path)
            (encode_newlines (concat (source_lines content)));
        w_calls := w_calls w;
        w_stderr := w_stderr w |}, Ok tt).
Proof.
  intros Hm Hneq. unfold extract_source. rewrite Hm.
  rewrite (write_file_other (w_files w) [] Hneq), Hm. reflexivity.
Qed.

(** C7: [main] writes to the temporary source file, in order, the lines of
    the [.m2] file that start with ["S "], without these two characters; it
    then runs [errant_parallel] on that file and, when that succeeds,
    [errant_compare] twice.  It prints one status line and no score. *)
Theorem main_spec (args : Args) (w : World) (content : str) :
  w_files w (file_of_path (m2 args)) = Some content ->
  file_of_path (m2 args) <> file_of_path source_path ->
  let written :=
    encode_newlines
      (concat (map (skipn 2)
                 (filter (startswith (lit "S ")) (readlines content)))) in
  let fs1 :=
    write_file (write_file (w_files w) (file_of_path source_path) [])
      (file_of_path source_path) written in
  fs1 (file_of_path source_path) = Some written /\
  fs1 (file_of_path (m2 args)) = Some content /\
  (subprocess_run (errant_parallel args) fs1 = None ->
   main args w =
     ({| w_files := fs1; w_calls := w_calls w; w_stderr := w_stderr w |},
      Err FileNotFoundError)) /\
  (forall status fs2,
     subprocess_run (errant_parallel args) fs1 = Some (status, fs2) ->
     (status <> 0%Z ->
      main args w =
        ({| w_files := fs2;
            w_calls := w_calls w ++ [errant_parallel args];
            w_stderr := w_stderr w |},
         Err CalledProcessError)) /\
     (status = 0%Z ->
      forall st3 fs3 st4 fs4,
        subprocess_run (errant_compare args) fs2 = Some (st3, fs3) ->
        subprocess_run (errant_compare_detailed args) fs3 = Some (st4, fs4) ->
        main args w =
          ({| w_files := fs4;
              w_calls :=
                w_calls w ++
                [ [lit "errant_parallel"; lit "-orig"; source_path; lit "-cor";
                   corrected args; lit "-out"; m2_target];
                  [lit "errant_compare"; lit "-hyp"; m2_target; lit "-ref";
                   m2 args];
                  [lit "errant_compare"; lit "-hyp"; m2_target; lit "-ref";
                   m2 args; lit "-ds"; lit "-cat"; lit "3"] ];
              w_stderr :=
                w_stderr w ++ [lit "Aligned submission: " ++ m2_target] |},
           Ok tt))).
Proof.
  intros Hm2 Hneq. cbv zeta.
  split; [apply write_file_same |].
  split; [rewrite !write_file_other by exact Hneq; exact Hm2 |].
  unfold main, script_bind. rewrite (extract_source_eq args w Hm2 Hneq).
  unfold source_lines, align_and_score, script_bind, run.
  cbn [w_files w_calls w_stderr].
  split.
  - intros E1. rewrite E1. reflexivity.
  - intros status fs2 E1. rewrite E1. split; intros Hst.
    + apply Z.eqb_neq in Hst. rewrite Hst. reflexivity.
    + subst status. cbn [Z.eqb negb]. intros st3 fs3 st4 fs4 E2 E3.
      unfold print_stderr. cbn [w_files w_calls w_stderr].
      rewrite E2. cbn [w_files w_calls w_stderr]. rewrite E3.
      cbn [w_files w_calls w_stderr]. rewrite <- !app_assoc. reflexivity.
Qed.

(** ** Further properties of candidate selection *)

(** X3: a token the dictionary has no suggestion for is its own correction. *)
Theorem top_candidate_no_suggestion (masked_text token : str) :
  sym_spell_lookup token CLOSEST 2 true = [] ->
  candidates_of token = [token] /\
  top_candidate masked_text token = Ok token.
Proof.
  intros H.
  assert (E : candidates_of token = [token]).
  { unfold candidates_of, _symspell_candidates. rewrite H. reflexivity. }
  split; [exact E |].
  unfold top_candidate. rewrite E. unfold _kenlm_rerank.
  cbn [fold_left dict_set sorted_desc fold_right insert_desc keys map fst
       getitem0 bind dict_get].
  rewrite str_eqb_refl. cbn [bind]. rewrite Z.eqb_refl. reflexivity.
Qed.

Lemma dict_set_present (f : str -> Z) (d : dict) (k : str) :
  scored_by f d -> In k (keys d) -> dict_set d k (f k) = d.
Proof.
  unfold scored_by. induction d as [|[k0 v0] d IH]; simpl; intros H Hin.
  - contradiction.
  - inversion H as [|? ? H0 Hd]; subst. simpl in H0.
    destruct (str_eqb k0 k) eqn:E.
    + apply str_eqb_eq in E. subst k0. rewrite H0. reflexivity.
    + destruct Hin as [-> | Hin].
      * rewrite str_eqb_refl in E. discriminate.
      * rewrite (IH Hd Hin). reflexivity.
Qed.

Lemma dict_set_absent (d : dict) (k : str) (v : Z) :
  ~ In k (keys d) -> dict_set d k v = d ++ [(k, v)].
Proof.
  induction d as [|[k0 v0] d IH]; simpl; intros Hin.
  - reflexivity.
  - destruct (str_eqb k0 k) eqn:E.
    + apply str_eqb_eq in E. exfalso. apply Hin. left. exact E.
    + rewrite IH; [reflexivity |]. intros N. apply Hin. right. exact N.
Qed.

(** Setting scores never reorders or changes the entries already there. *)
Lemma fold_dict_set_extends (f : str -> Z) (cs : list str) :
  forall d, scored_by f d ->
    exists more,
      fold_left (fun acc c => dict_set acc c (f c)) cs d = d ++ more /\
      (forall k, In k (keys more) -> In k cs).
Proof.
  induction cs as [|c cs IH]; intros d Hsc.
  - exists []. split; [symmetry; apply app_nil_r | intros k []].
  - cbn [fold_left].
    destruct (existsb (str_eqb c) (keys d)) eqn:E.
    + apply existsb_str_eqb in E. rewrite (@dict_set_present f d c Hsc E).
      destruct (IH d Hsc) as (more & Hm & Hk). exists more.
      split; [exact Hm | intros k Hin; right; apply Hk, Hin].
    + assert (Hnin : ~ In c (keys d)).
      { intros N. apply existsb_str_eqb in N. rewrite N in E. discriminate. }
      rewrite (@dict_set_absent d c (f c) Hnin).
      destruct (IH (d ++ [(c, f c)])) as (more & Hm & Hk).
      * unfold scored_by. apply Forall_app. split; [exact Hsc |].
        constructor; [reflexivity | constructor].
      * exists ((c, f c) :: more). split.
        -- rewrite Hm, <- app_assoc. reflexivity.
        -- intros k [<- | Hin]; [left; reflexivity | right; apply Hk, Hin].
Qed.

Lemma fold_dict_set_split (f : str -> Z) (l1 l2 : list str) (c : str) :
  ~ In c l1 ->
  exists d1 d2,
    fold_left (fun acc k => dict_set acc k (f k)) (l1 ++ c :: l2) [] =
      d1 ++ (c, f c) :: d2 /\
    scored_by f d1 /\ scored_by f d2 /\
    (forall k, In k (keys d1) -> In k l1) /\
    (forall k, In k (keys d2) -> In k l2).
Proof.
  intros Hc. rewrite fold_left_app. cbn [fold_left].
  destruct (@fold_dict_set_extends f l1 []) as (d1 & H1 & K1); [constructor |].
  simpl in H1. rewrite H1.
  destruct (@fold_dict_set f l1 []) as (_ & S1 & _); [constructor | constructor |].
  cbv zeta in S1. rewrite H1 in S1.
  assert (Hnin : ~ In c (keys d1)) by (intros N; apply Hc, K1, N).
  rewrite (@dict_set_absent d1 c (f c) Hnin).
  assert (S1' : scored_by f (d1 ++ [(c, f c)])).
  { unfold scored_by. apply Forall_app. split; [exact S1 |].
    constructor; [reflexivity | constructor]. }
  destruct (@fold_dict_set_extends f l2 (d1 ++ [(c, f c)]) S1')
    as (d2 & H2 & K2).
  destruct (@fold_dict_set f l2 (d1 ++ [(c, f c)])) as (_ & S2 & _).
  - unfold keys. rewrite map_app. simpl.
    destruct (@fold_dict_set f l1 []) as (N1 & _ & _);
      [constructor | constructor |].
    cbv zeta in N1. rewrite H1 in N1.
    apply NoDup_app_remove_r with (l' := []). rewrite app_nil_r.
    apply Permutation_NoDup with (l := c :: map fst d1).
    + apply Permutation_cons_append.
    + constructor; assumption.
  - exact S1'.
  - cbv zeta in S2. rewrite H2 in S2.
    exists d1, d2. rewrite H2, <- app_assoc. cbn [app].
    unfold scored_by in S2. apply Forall_app in S2. destruct S2 as (_ & S2).
    repeat split; assumption.
Qed.

(** The first entry with the highest score heads the sorted dictionary. *)
Lemma sorted_desc_head (d1 d2 : dict) (x : str * Z) :
  Forall (fun y => (snd y < snd x)%Z) d1 ->
  Forall (fun y => (snd y <= snd x)%Z) d2 ->
  exists rest, sorted_desc (d1 ++ x :: d2) = x :: rest.
Proof.
  intros H1 H2. induction H1 as [|y d1 Hy _ IH].
  - cbn [app sorted_desc fold_right].
    fold (sorted_desc d2).
    assert (Hs : Forall (fun y => (snd y <= snd x)%Z) (sorted_desc d2)).
    { eapply Permutation_Forall; [| exact H2].
      apply Permutation_sym, sorted_desc_perm. }
    destruct (sorted_desc d2) as [|z zs]; cbn [insert_desc].
    + exists []. reflexivity.
    + inversion Hs as [|? ? Hz _]; subst.
      apply Z.leb_le in Hz. rewrite Hz. eexists. reflexivity.
  - destruct IH as (rest & IH).
    cbn [app sorted_desc fold_right].
    fold (sorted_desc (d1 ++ x :: d2)). rewrite IH. cbn [insert_desc].
    replace (snd x <=? snd y)%Z with false
      by (symmetry; apply Z.leb_gt; exact Hy).
    eexists. reflexivity.
Qed.

(** X4: among the candidates with the highest score, the one that comes
    first in the candidate list is chosen, unless the original token has that
    score too. *)
Theorem top_candidate_first_best (masked_text token c : str)
  (l1 l2 : list str) :
  candidates_of token = l1 ++ c :: l2 ->
  (forall k, In k l1 ->
     (candidate_score masked_text k < candidate_score masked_text c)%Z) ->
  (forall k, In k l2 ->
     (candidate_score masked_text k <= candidate_score masked_text c)%Z) ->
  getitem0 (keys (_kenlm_rerank masked_text (candidates_of token))) = Ok c /\
  top_candidate masked_text token =
    Ok (if (candidate_score masked_text token
            =? candidate_score masked_text c)%Z
        then token else c).
Proof.
  intros Hc H1 H2.
  set (f := candidate_score masked_text).
  assert (Hnin : ~ In c l1).
  { intros N. specialize (H1 c N). lia. }
  assert (Hhead : getitem0 (keys (_kenlm_rerank masked_text (candidates_of token)))
                  = Ok c).
  { rewrite Hc.
    change (_kenlm_rerank masked_text (l1 ++ c :: l2))
      with (sorted_desc
              (fold_left (fun acc k => dict_set acc k (f k)) (l1 ++ c :: l2) [])).
    destruct (@fold_dict_set_split f l1 l2 c Hnin)
      as (d1 & d2 & E & S1 & S2 & K1 & K2).
    rewrite E.
    destruct (@sorted_desc_head d1 d2 (c, f c)) as (rest & Hr).
    - unfold scored_by in S1. rewrite Forall_forall in S1. apply Forall_forall.
      intros [k v] Hin. specialize (S1 _ Hin). simpl in *. subst v.
      apply H1, K1. unfold keys. apply in_map_iff. exists (k, f k). auto.
    - unfold scored_by in S2. rewrite Forall_forall in S2. apply Forall_forall.
      intros [k v] Hin. specialize (S2 _ Hin). simpl in *. subst v.
      apply H2, K2. unfold keys. apply in_map_iff. exists (k, f k). auto.
    - rewrite Hr. reflexivity. }
  split; [exact Hhead |].
  destruct (top_candidate_eq masked_text token) as (top & Hg & E & _).
  rewrite Hhead in Hg. inversion Hg; subst top. exact E.
Qed.

(** ** Further properties of the masked context *)

Lemma slice_beyond {A : Type} (l : list A) (a b : nat) :
  length l <= a -> slice l a b = [].
Proof.
  intros H. unfold slice. rewrite skipn_all2 by exact H. apply firstn_nil.
Qed.

(** X1: a span at the start of the document has no left context and the
    masked text begins with a space; a span at the end has no right context
    and the masked text ends with a space. *)
Theorem masked_text_at_edges (doc : Doc) (span : Span) (window : nat) :
  (span_start span = 0 ->
   get_masked_text doc span window =
     lit " <mask> "
     ++ join (lit " ")
          (map tok_text (firstn window (skipn (span_end span) (tokens doc))))) /\
  (length (tokens doc) <= span_end span ->
   get_masked_text doc span window =
     join (lit " ")
       (map tok_text
          (slice (tokens doc) (span_start span - window) (span_start span)))
     ++ lit " <mask> ").
Proof.
  split; intros H; unfold get_masked_text.
  - rewrite H. replace (if window <=? 0 then 0 - window else 0) with 0
      by (destruct (window <=? 0); reflexivity).
    unfold slice at 1. cbn [Nat.sub firstn map join app].
    unfold slice. replace (span_end span + window - span_end span) with window
      by lia.
    reflexivity.
  - rewrite (slice_beyond (tokens doc) (span_end span + window) H).
    cbn [map join]. rewrite app_nil_r.
    replace (if window <=? span_start span then span_start span - window else 0)
      with (span_start span - window).
    + reflexivity.
    + destruct (window <=? span_start span) eqn:E; [reflexivity |].
      apply Nat.leb_gt in E. lia.
Qed.

Lemma slice_prefix {A : Type} (pre rest : list A) (a : nat) :
  slice (pre ++ rest) a (length pre) = skipn a pre.
Proof.
  unfold slice. destruct (Nat.le_gt_cases a (length pre)) as [H | H].
  - rewrite skipn_app. replace (a - length pre) with 0 by lia.
    cbn [skipn].
    replace (length pre - a) with (length (skipn a pre))
      by (rewrite length_skipn; reflexivity).
    apply firstn_app_length.
  - replace (length pre - a) with 0 by lia. rewrite firstn_O.
    symmetry. apply skipn_all2. lia.
Qed.

Lemma slice_suffix {A : Type} (pre post : list A) (w : nat) :
  slice (pre ++ post) (length pre) (length pre + w) = firstn w post.
Proof.
  unfold slice. rewrite skipn_app_length. f_equal. lia.
Qed.

(** X2: the masked text does not depend on the tokens of the span: two
    documents that agree before the span and after it have the same masked
    text. *)
Theorem masked_text_ignores_span (d1 d2 : Doc) (s1 s2 : Span)
  (pre mid1 mid2 post : list Token) (window : nat) :
  tokens d1 = pre ++ mid1 ++ post ->
  tokens d2 = pre ++ mid2 ++ post ->
  span_start s1 = length pre -> span_end s1 = length pre + length mid1 ->
  span_start s2 = length pre -> span_end s2 = length pre + length mid2 ->
  get_masked_text d1 s1 window = get_masked_text d2 s2 window /\
  get_masked_text d1 s1 window =
    join (lit " ") (map tok_text (skipn (length pre - window) pre))
    ++ lit " <mask> "
    ++ join (lit " ") (map tok_text (firstn window post)).
Proof.
  intros T1 T2 A1 B1 A2 B2.
  assert (G : forall (d : Doc) (s : Span) (mid : list Token),
            tokens d = pre ++ mid ++ post ->
            span_start s = length pre ->
            span_end s = length pre + length mid ->
            get_masked_text d s window =
              join (lit " ") (map tok_text (skipn (length pre - window) pre))
              ++ lit " <mask> "
              ++ join (lit " ") (map tok_text (firstn window post))).
  { intros d s mid T A B. unfold get_masked_text. rewrite T, A, B.
    rewrite slice_prefix.
    replace (pre ++ mid ++ post) with ((pre ++ mid) ++ post)
      by (symmetry; apply app_assoc).
    rewrite <- (length_app pre mid), slice_suffix.
    replace (if window <=? length pre then length pre - window else 0)
      with (length pre - window).
    - reflexivity.
    - destruct (window <=? length pre) eqn:E; [reflexivity |].
      apply Nat.leb_gt in E. lia. }
  split.
  - rewrite (G d1 s1 mid1 T1 A1 B1), (G d2 s2 mid2 T2 A2 B2). reflexivity.
  - apply (G d1 s1 mid1 T1 A1 B1).
Qed.

Lemma replace_from_no_lt (c s : str) :
  ~ In 60%N s -> replace_from MASK_TOKEN c 0 s = s.
Proof.
  induction s as [|x s IH]; intros H.
  - reflexivity.
  - cbn [replace_from]. unfold MASK_TOKEN at 1. cbn [startswith].
    replace (60 =? x)%N with false.
    + cbn [andb]. rewrite IH; [reflexivity |].
      intros N. apply H. right. exact N.
    + symmetry. apply N.eqb_neq. intros E. apply H. left. symmetry. exact E.
Qed.

Lemma join_no_lt (xs : list str) :
  Forall (fun x => ~ In 60%N x) xs -> ~ In 60%N (join (lit " ") xs).
Proof.
  induction xs as [|x xs IH]; intros H N.
  - destruct N.
  - inversion H as [|? ? Hx Hxs]; subst. destruct xs as [|y ys].
    + apply Hx, N.
    + change (join (lit " ") (x :: y :: ys))
        with (x ++ lit " " ++ join (lit " ") (y :: ys)) in N.
      apply in_app_or in N. destruct N as [N | N]; [apply Hx, N |].
      apply in_app_or in N. destruct N as [N | N].
      * destruct N as [N | []]. discriminate N.
      * apply (IH Hxs N).
Qed.

Lemma In_slice {A : Type} (l : list A) (a b : nat) (x : A) :
  In x (slice l a b) -> In x l.
Proof.
  unfold slice. intros H.
  rewrite <- (firstn_skipn a l). apply in_or_app. right.
  rewrite <- (firstn_skipn (b - a) (skipn a l)). apply in_or_app. left.
  exact H.
Qed.

(** X5: when no token of the document holds the character ["<"], the score
    [_kenlm_rerank] gives a candidate is the score of the lower-cased text
    made of the left context, a space, the candidate, a space and the right
    context: the candidate is substituted once, at the place of the span. *)
Theorem candidate_text_single_substitution (doc : Doc) (span : Span)
  (window : nat) (candidates : list str) (c : str) :
  Forall (fun t => ~ In 60%N (tok_text t)) (tokens doc) ->
  In c candidates ->
  exists left_text right_text,
    get_masked_text doc span window =
      left_text ++ lit " " ++ MASK_TOKEN ++ lit " " ++ right_text /\
    dict_get (_kenlm_rerank (get_masked_text doc span window) candidates) c =
      Ok (kenlm_score
            (lower (left_text ++ lit " " ++ c ++ lit " " ++ right_text))).
Proof.
  intros H Hc.
  assert (Hs : forall a b,
            ~ In 60%N (join (lit " ") (map tok_text (slice (tokens doc) a b)))).
  { intros a b. apply join_no_lt. rewrite Forall_map.
    apply Forall_forall. intros t Ht. rewrite Forall_forall in H. apply H.
    apply (In_slice _ _ _ _ Ht). }
  rewrite (rerank_score _ _ _ Hc).
  unfold get_masked_text.
  set (left_text := join (lit " ") (map tok_text (slice (tokens doc) _ _))).
  set (right_text := join (lit " ") (map tok_text (slice (tokens doc) _ _))).
  exists left_text, right_text.
  assert (E : left_text ++ (lit " " ++ MASK_TOKEN ++ lit " ") ++ right_text
              = (left_text ++ lit " ") ++ MASK_TOKEN ++ (lit " " ++ right_text)).
  { rewrite <- !app_assoc. reflexivity. }
  split.
  - rewrite <- !app_assoc. reflexivity.
  - rewrite E, replace_mask_app.
    unfold replace. rewrite !replace_from_no_lt.
    + rewrite <- !app_assoc. reflexivity.
    + intros N. apply in_app_or in N. destruct N as [N | N].
      * destruct N as [N | []]. discriminate N.
      * apply (Hs _ _ N).
    + intros N. apply in_app_or in N. destruct N as [N | N].
      * apply (Hs _ _ N).
      * destruct N as [N | []]. discriminate N.
Qed.

(** ** Further properties of the suppression rules *)

Lemma skipn_nth_error {A : Type} (l : list A) (n : nat) (x : A) :
  nth_error l n = Some x -> skipn n l = x :: skipn (S n) l.
Proof.
  revert n. induction l as [|y l IH]; intros [|n] H; try discriminate H.
  - simpl in H. inversion H. reflexivity.
  - simpl in H. apply (IH n H).
Qed.

Lemma slice_cons {A : Type} (l : list A) (s e : nat) (x : A) :
  nth_error l s = Some x -> s < e -> slice l s e = x :: slice l (S s) e.
Proof.
  intros H Hse. unfold slice. rewrite (skipn_nth_error l s H).
  replace (e - s) with (S (e - S s)) by lia. reflexivity.
Qed.

(** X6: [_valid_edit] looks at the first token of the span only: its first
    character and its entity type decide, whatever the other tokens of the
    span are. *)
Theorem valid_edit_first_token (doc : Doc) (span : Span) (first : Token) :
  nth_error (tokens doc) (span_start span) = Some first ->
  span_start span < span_end span ->
  tok_text first <> [] ->
  _valid_edit doc (Some span) =
    Ok (negb (starts_with_digit (tok_text first)
              || is_named_entity (tok_ent_type first))).
Proof.
  intros Hn Hse Hne.
  unfold _valid_edit, span_text, span_tokens. cbn [deref bind].
  rewrite (slice_cons (tokens doc) Hn Hse).
  assert (Hd : starts_with_digit
                 (tokens_text
                    (first :: slice (tokens doc) (S (span_start span))
                                (span_end span)))
               = starts_with_digit (tok_text first)).
  { destruct (tok_text first) as [|ch t] eqn:Et; [contradiction |].
    cbn [tokens_text].
    destruct (slice (tokens doc) (S (span_start span)) (span_end span)).
    - rewrite Et. reflexivity.
    - unfold text_with_ws. rewrite Et. reflexivity. }
  rewrite Hd. cbn [getitem0 bind].
  destruct (starts_with_digit (tok_text first)); [reflexivity |].
  destruct (is_named_entity (tok_ent_type first)); reflexivity.
Qed.

(** ** Further properties of [correct] and of the pipeline component *)

Lemma correct_loop_all_suppressed (doc : Doc) (spans : list Span)
  (a : AnnotatedText) :
  Forall (fun span => span_tokens doc span <> [] /\ suppressed doc span = true)
         spans ->
  correct_loop doc (map Some spans) a = Ok a.
Proof.
  intros H. induction H as [|span spans (Hne & Hs) _ IH].
  - reflexivity.
  - cbn [map correct_loop]. rewrite (valid_edit_suppressed doc span Hne), Hs.
    cbn [negb bind]. exact IH.
Qed.

(** X7: when every detected span is rejected by the suppression rules (or
    none is detected), [correct] returns and records no annotation; the
    spans need not be ordered for that. *)
Theorem correct_all_suppressed (text : str) (spans : list Span) :
  snd (parse_annotated text) = [] ->
  _set_error_spans (nlp text) =
    Ok {| tokens := tokens (nlp text); speliuk_errors := map Some spans |} ->
  Forall (fun span =>
            span_tokens (nlp text) span <> [] /\
            suppressed (nlp text) span = true) spans ->
  exists c, correct text = Ok c /\ annotations c = [].
Proof.
  intros H0 H1 H2. unfold correct. rewrite H1, H0. cbn [bind].
  rewrite (@correct_loop_ext
             {| tokens := tokens (nlp text); speliuk_errors := map Some spans |}
             (nlp text)) by reflexivity.
  cbn [speliuk_errors].
  rewrite (@correct_loop_all_suppressed (nlp text) spans _ H2). cbn [bind].
  eexists. split; reflexivity.
Qed.

(** X8: on a document whose text meets the conditions of C2,
    [CorrectionPipe.__call__] looks up one span per recorded edit with
    [char_span] on the document it was given, at the bounds of the edit and
    with the chosen correction as label.  When every lookup gives a span, it
    returns the document with these spans, its tokens unchanged, and the
    corrected text of [correct]; when a lookup gives [None], storing the
    spans raises [ValueError]. *)
Theorem correction_pipe_call (doc : Doc) (spans : list Span) :
  parse_annotated (doc_text doc) = (doc_text doc, []) ->
  _set_error_spans (nlp (doc_text doc)) =
    Ok {| tokens := tokens (nlp (doc_text doc));
          speliuk_errors := map Some spans |} ->
  Forall (fun span => span_tokens (nlp (doc_text doc)) span <> []) spans ->
  ascending (length (doc_text doc)) 0
    (map (char_range (nlp (doc_text doc))) spans) = true ->
  exists c entries,
    correct (doc_text doc) = Ok c /\
    length entries = length (annotations c) /\
    Forall2
      (fun span entry =>
         exists correction,
           top_candidate (get_masked_text (nlp (doc_text doc)) span 5)
             (span_text (nlp (doc_text doc)) span) = Ok correction /\
           entry =
             char_span doc (span_start_char (nlp (doc_text doc)) span)
               (span_end_char (nlp (doc_text doc)) span) correction)
      (filter (fun span => negb (suppressed (nlp (doc_text doc)) span)) spans)
      entries /\
    (In None entries -> CorrectionPipe__call__ doc = Err ValueError) /\
    (~ In None entries ->
     CorrectionPipe__call__ doc =
       Ok ({| tokens := tokens doc; speliuk_errors := entries |},
           corrected_text c)).
Proof.
  intros H0 H1 H2 H3. unfold CorrectionPipe__call__.
  rewrite (correct_ok_edits H0 H1 H2 H3). cbn [bind corrected_text annotations].
  eexists.
  exists (map (fun a => char_span doc (ann_start a) (ann_end a)
                          (suggestion_label a))
            (map (edit_of (nlp (doc_text doc)) (doc_text doc))
               (accepted (nlp (doc_text doc)) spans))).
  split; [reflexivity |].
  cbn [corrected_text annotations].
  split; [apply length_map |]. split; [| split].
  - unfold accepted.
    induction (filter (fun span => negb (suppressed (nlp (doc_text doc)) span))
                 spans) as [|span l IH]; cbn [map]; constructor.
    + destruct (top_candidate_total
                  (get_masked_text (nlp (doc_text doc)) span 5)
                  (span_text (nlp (doc_text doc)) span)) as (best & Eb).
      exists best. split; [exact Eb |].
      unfold suggestion_label, top_suggestion, edit_of. rewrite Eb. reflexivity.
    + exact IH.
  - intros Hn. rewrite (set_spans_None doc _ Hn). reflexivity.
  - intros Hn. unfold set_spans.
    match goal with
    | |- context [forallb is_span ?l] =>
        replace (forallb is_span l) with true
    end.
    + reflexivity.
    + symmetry. apply forallb_forall. intros [x |] Hx; [reflexivity |].
      exfalso. apply Hn, Hx.
Qed.

(** X12: [_is_person] holds exactly when the parse carries one of the
    grammemes [Name], [Patr] and [Surn]. *)
Theorem is_person_spec (parse : Parse) :
  _is_person parse = true <->
  In (lit "Name") (grammemes parse) \/
  In (lit "Patr") (grammemes parse) \/
  In (lit "Surn") (grammemes parse).
Proof.
  unfold _is_person. cbn [filter].
  rewrite <- !existsb_str_eqb.
  destruct (existsb (str_eqb (lit "Name")) (grammemes parse));
  destruct (existsb (str_eqb (lit "Patr")) (grammemes parse));
  destruct (existsb (str_eqb (lit "Surn")) (grammemes parse));
  cbn; split; auto; intros H;
  try discriminate H; destruct H as [H | [H | H]]; discriminate H.
Qed.

(** ** Further properties of the evaluation script *)

Lemma run_calls (cmd : list str) (w : World) :
  (exists status fs,
     subprocess_run cmd (w_files w) = Some (status, fs) /\
     run cmd w = ({| w_files := fs; w_calls := w_calls w ++ [cmd];
                     w_stderr := w_stderr w |}, Ok status)) \/
  (subprocess_run cmd (w_files w) = None /\
   run cmd w = (w, Err FileNotFoundError)).
Proof.
  unfold run. destruct (subprocess_run cmd (w_files w)) as [[status fs] |].
  - left. exists status, fs. split; reflexivity.
  - right. split; reflexivity.
Qed.

(** X11: the commands [main] starts are always the first [n] of
    [errant_parallel], [errant_compare] and [errant_compare -ds -cat 3], in
    that order; [main] returns normally exactly when it started all three,
    whatever the two compare commands exit with; it starts a compare command
    only after [errant_parallel] exited with status 0; and when the [.m2]
    file cannot be opened it starts nothing and changes nothing. *)
Theorem main_call_discipline (args : Args) (w : World) :
  exists n,
    n <= 3 /\
    w_calls (fst (main args w)) = w_calls w ++ firstn n (commands args) /\
    (snd (main args w) = Ok tt <-> n = 3) /\
    (2 <= n ->
     exists fs fs2,
       subprocess_run (errant_parallel args) fs = Some (0%Z, fs2)) /\
    (w_files w (file_of_path (m2 args)) = None ->
     n = 0 /\ main args w = (w, Err FileNotFoundError)).
Proof.
  unfold main, script_bind, extract_source.
  destruct (w_files w (file_of_path (m2 args))) as [content |] eqn:Em.
  2:{ exists 0. cbn [fst snd firstn]. rewrite app_nil_r.
      repeat split; auto; try lia; try discriminate. }
  set (w1 := {| w_files := _; w_calls := w_calls w; w_stderr := w_stderr w |}).
  unfold align_and_score, script_bind.
  destruct (run_calls (errant_parallel args) w1)
    as [(status & fs2 & E1 & R1) | (E1 & R1)]; rewrite R1.
  2:{ exists 0. cbn [fst snd firstn w_calls w1]. rewrite app_nil_r.
      repeat split; auto; try lia; try discriminate. }
  destruct (status =? 0)%Z eqn:Est; cbn [negb].
  2:{ exists 1. cbn [fst snd firstn w_calls w1 commands].
      repeat split; auto; try lia; try discriminate. }
  apply Z.eqb_eq in Est. subst status.
  unfold print_stderr. cbn [w_files w_calls w_stderr].
  match goal with
  | |- context [run (errant_compare args) ?w3] =>
      destruct (run_calls (errant_compare args) w3)
        as [(st3 & fs3 & E2 & R2) | (E2 & R2)]; rewrite R2
  end.
  2:{ exists 1. cbn [fst snd firstn w_calls w1 commands].
      repeat split; auto; try lia; try discriminate. }
  match goal with
  | |- context [run (errant_compare_detailed args) ?w4] =>
      destruct (run_calls (errant_compare_detailed args) w4)
        as [(st4 & fs4 & E3 & R3) | (E3 & R3)]; rewrite R3
  end.
  - exists 3. cbn [fst snd firstn w_calls w1 commands]. rewrite <- !app_assoc.
    repeat split; auto; try lia; try discriminate.
    intros _. exists (w_files w1), fs2. exact E1.
  - exists 2. cbn [fst snd firstn w_calls w1 commands]. rewrite <- !app_assoc.
    repeat split; auto; try lia; try discriminate.
    intros _. exists (w_files w1), fs2. exact E1.
Qed.

(** X9: when the [.m2] path names the temporary source file itself, opening
    it for writing empties it before it is read: the source written is
    empty, every other file is as it was, and [errant_parallel] is run on
    the emptied file. *)
Theorem main_gold_is_source (args : Args) (w : World) (content : str) :
  w_files w (file_of_path (m2 args)) = Some content ->
  file_of_path (m2 args) = file_of_path source_path ->
  let fs1 :=
    write_file (write_file (w_files w) (file_of_path source_path) [])
      (file_of_path source_path) [] in
  fs1 (file_of_path (m2 args)) = Some [] /\
  (forall f, f <> file_of_path (m2 args) -> fs1 f = w_files w f) /\
  (forall status fs2,
     subprocess_run (errant_parallel args) fs1 = Some (status, fs2) ->
     (status <> 0%Z ->
      snd (main args w) = Err CalledProcessError /\
      w_files (fst (main args w)) = fs2) /\
     (status = 0%Z ->
      forall st3 fs3 st4 fs4,
        subprocess_run (errant_compare args) fs2 = Some (st3, fs3) ->
        subprocess_run (errant_compare_detailed args) fs3 = Some (st4, fs4) ->
        snd (main args w) = Ok tt)).
Proof.
  intros Hm Heq. cbv zeta.
  split; [rewrite Heq; apply write_file_same |].
  split.
  { intros f Hf. rewrite Heq in Hf. rewrite !write_file_other by exact Hf.
    reflexivity. }
  assert (Hread : write_file (w_files w) (file_of_path source_path) []
                    (file_of_path (m2 args)) = Some []).
  { rewrite Heq. apply write_file_same. }
  intros status fs2 E1.
  unfold main, script_bind, extract_source. rewrite Hm, Hread.
  cbn [readlines readlines_from filter map concat encode_newlines flat_map].
  unfold align_and_score, script_bind, run. cbn [w_files w_calls w_stderr].
  rewrite E1. split; intros Hst.
  - apply Z.eqb_neq in Hst. rewrite Hst. cbn [negb fst snd w_files].
    split; reflexivity.
  - subst status. cbn [Z.eqb negb]. intros st3 fs3 st4 fs4 E2 E3.
    unfold print_stderr. cbn [w_files w_calls w_stderr].
    rewrite E2. cbn [w_files w_calls w_stderr]. rewrite E3. reflexivity.
Qed.

Lemma readlines_from_body (body rest : str) :
  ~ In 10%N body -> ~ In 13%N body ->
  forall cur,
    readlines_from cur false (body ++ rest) =
      readlines_from (rev body ++ cur) false rest.
Proof.
  induction body as [|x body IH]; intros H10 H13 cur.
  - reflexivity.
  - cbn [app readlines_from].
    replace (x =? 10)%N with false
      by (symmetry; apply N.eqb_neq; intros E; apply H10; left; exact E).
    replace (x =? 13)%N with false
      by (symmetry; apply N.eqb_neq; intros E; apply H13; left; exact E).
    rewrite IH.
    + cbn [rev]. rewrite <- app_assoc. reflexivity.
    + intros N. apply H10. right. exact N.
    + intros N. apply H13. right. exact N.
Qed.

Lemma encode_newlines_plain (body : str) :
  ~ In 10%N body -> encode_newlines body = body.
Proof.
  unfold encode_newlines. induction body as [|x body IH]; intros H.
  - reflexivity.
  - cbn [flat_map].
    replace (x =? 10)%N with false
      by (symmetry; apply N.eqb_neq; intros E; apply H; left; exact E).
    cbn [app]. rewrite IH; [reflexivity |].
    intros N. apply H. right. exact N.
Qed.

Lemma encode_newlines_app (a b : str) :
  encode_newlines (a ++ b) = encode_newlines a ++ encode_newlines b.
Proof. unfold encode_newlines. apply flat_map_app. Qed.

(** A line written and read back in text mode is the same line. *)
Lemma readlines_encoded_line (body rest : str) :
  linesep = [10%N] \/ linesep = [13%N; 10%N] ->
  ~ In 10%N body -> ~ In 13%N body ->
  readlines_from [] false (encode_newlines (body ++ [10%N]) ++ rest) =
    (body ++ [10%N]) :: readlines_from [] false rest.
Proof.
  intros Hsep H10 H13.
  assert (E : encode_newlines (body ++ [10%N]) = body ++ linesep).
  { rewrite encode_newlines_app, (encode_newlines_plain body H10).
    unfold encode_newlines. cbn [flat_map N.eqb Pos.eqb].
    rewrite app_nil_r. reflexivity. }
  rewrite E, <- app_assoc.
  rewrite (@readlines_from_body body (linesep ++ rest) H10 H13 []).
  rewrite app_nil_r.
  destruct Hsep as [-> | ->]; cbn [app readlines_from N.eqb Pos.eqb];
    cbn [rev]; rewrite rev_involutive; reflexivity.
Qed.

Lemma readlines_encoded (ls : list str) :
  linesep = [10%N] \/ linesep = [13%N; 10%N] ->
  Forall terminated ls ->
  readlines (encode_newlines (concat ls)) = ls.
Proof.
  intros Hsep H. unfold readlines.
  induction H as [|l ls (body & -> & H10 & H13) _ IH].
  - reflexivity.
  - cbn [concat].
    rewrite encode_newlines_app.
    rewrite (@readlines_encoded_line body _ Hsep H10 H13).
    f_equal. exact IH.
Qed.

Lemma readlines_from_terminated (s : str) :
  forall cur after_cr,
    ~ In 10%N cur -> ~ In 13%N cur ->
    (after_cr = true -> cur = []) ->
    (s = [] /\ cur = []) \/ last s 0%N = 10%N \/ last s 0%N = 13%N ->
    Forall terminated (readlines_from cur after_cr s).
Proof.
  induction s as [|c s IH]; intros cur after_cr H10 H13 Hcr Hend.
  - destruct Hend as [(_ & ->) | [N | N]];
      [constructor | discriminate N | discriminate N].
  - assert (Hrest : (s = [] /\ @nil char = []) \/
                    last s 0%N = 10%N \/ last s 0%N = 13%N).
    { destruct s as [|c' s']; [left; split; reflexivity |].
      right. destruct Hend as [(N & _) | N]; [discriminate N | exact N]. }
    assert (Hline : terminated (rev (10%N :: cur))).
    { exists (rev cur). split; [reflexivity |].
      split; intros N; apply in_rev in N; [apply H10, N | apply H13, N]. }
    cbn [readlines_from]. destruct (c =? 10)%N eqn:E10.
    + destruct after_cr.
      * rewrite (Hcr eq_refl).
        apply IH; [intros [] | intros [] | reflexivity | exact Hrest].
      * constructor; [exact Hline |].
        apply IH; [intros [] | intros [] | reflexivity | exact Hrest].
    + destruct (c =? 13)%N eqn:E13.
      * constructor; [exact Hline |].
        apply IH; [intros [] | intros [] | reflexivity | exact Hrest].
      * apply N.eqb_neq in E10. apply N.eqb_neq in E13. apply IH.
        -- intros [N | N]; [apply E10; exact N | apply H10, N].
        -- intros [N | N]; [apply E13; exact N | apply H13, N].
        -- intros N. discriminate N.
        -- right. destruct s as [|c' s'].
           ++ destruct Hend as [(N & _) | [N | N]];
                [discriminate N | simpl in N; contradiction
                | simpl in N; contradiction].
           ++ destruct Hend as [(N & _) | N]; [discriminate N | exact N].
Qed.

Lemma strip_terminated (l : str) :
  terminated l -> startswith (lit "S ") l = true -> terminated (skipn 2 l).
Proof.
  intros (body & -> & H10 & H13) Hs.
  destruct body as [|b1 [|b2 body]].
  - vm_compute in Hs. discriminate Hs.
  - cbn in Hs. rewrite andb_false_r in Hs. discriminate Hs.
  - exists body. split; [reflexivity |].
    split; intros N; [apply H10 | apply H13]; right; right; exact N.
Qed.

(** X10: for an [.m2] file that is empty or ends with a line end, where the
    line separator of the system is ["\n"] or ["\r\n"], the first step of
    [main] writes a source file that reads back as exactly the lines that
    started with ["S "], each without these two characters and in the same
    order; the commands of [main] are run on that file. *)
Theorem source_file_round_trip (args : Args) (w : World) (content : str) :
  w_files w (file_of_path (m2 args)) = Some content ->
  file_of_path (m2 args) <> file_of_path source_path ->
  linesep = [10%N] \/ linesep = [13%N; 10%N] ->
  content = [] \/ last content 0%N = 10%N \/ last content 0%N = 13%N ->
  exists w1 written,
    extract_source args w = (w1, Ok tt) /\
    main args w = align_and_score args w1 /\
    w_files w1 (file_of_path source_path) = Some written /\
    readlines written =
      map (skipn 2) (filter (startswith (lit "S ")) (readlines content)) /\
    length (readlines written) =
      length (filter (startswith (lit "S ")) (readlines content)).
Proof.
  intros Hm Hneq Hsep Hend.
  pose proof (extract_source_eq args w Hm Hneq) as E.
  eexists. eexists. split; [exact E |].
  split; [unfold main, script_bind; rewrite E; reflexivity |].
  cbn [w_files]. split; [apply write_file_same |].
  assert (Ht : Forall terminated (readlines content)).
  { unfold readlines. apply readlines_from_terminated;
      [intros [] | intros [] | intros N; reflexivity |].
    destruct Hend as [-> | N]; [left; split; reflexivity | right; exact N]. }
  assert (Hw : Forall terminated (source_lines content)).
  { unfold source_lines. rewrite Forall_map. apply Forall_forall. intros l Hl.
    apply filter_In in Hl. destruct Hl as (Hl & Hs).
    rewrite Forall_forall in Ht. apply strip_terminated; [apply Ht, Hl | exact Hs]. }
  rewrite (readlines_encoded Hsep Hw). unfold source_lines.
  split; [reflexivity | apply length_map].
Qed.

End Speliuk.

(** ** The theorems on the small instance *)

Lemma get_masked_text_spec_witness :
  exists left right : list Token,
    length left = 1 /\ length right = 2 /\
    get_masked_text (ex_nlp ex_text) (mkSpan 1 2) 5 =
      join (lit " ") (map tok_text left)
      ++ lit " <mask> "
      ++ join (lit " ") (map tok_text right).
Proof.
  destruct (get_masked_text_spec (ex_nlp ex_text) (mkSpan 1 2))
    as (b & l & i & r & a & _ & _ & _ & _ & Hl & Hr & _ & _ & E).
  - vm_compute. lia.
  - vm_compute. lia.
  - exists l, r. repeat split; assumption.
Defined.

Lemma valid_edit_spec_witness :
  _valid_edit ex_isdigit (ex_nlp ex_text) (Some (mkSpan 2 3)) = Ok false /\
  _valid_edit ex_isdigit (ex_nlp ex_text) (Some (mkSpan 1 2)) = Ok true.
Proof.
  split.
  - destruct (@valid_edit_spec ex_isdigit (ex_nlp ex_text) (mkSpan 2 3))
      as (first & rest & _ & H & _).
    + vm_compute. lia.
    + vm_compute. lia.
    + apply H. left. reflexivity.
  - destruct (@valid_edit_spec ex_isdigit (ex_nlp ex_text) (mkSpan 1 2))
      as (first & rest & Hs & _ & H).
    + vm_compute. lia.
    + vm_compute. lia.
    + apply H. vm_compute in Hs. inversion Hs; subst first.
      intros [N | [N | [N | N]]]; vm_compute in N; discriminate N.
Defined.

Lemma correct_needs_aligned_spans_witness :
  Forall (fun ent =>
            exists span,
              ex_char_span (ex_nlp ex_text) (ent_start_char ent)
                (ent_end_char ent) (ent_label ent) = Some span /\
              slice (tokens (ex_nlp ex_text)) (span_start span) (span_end span)
                <> [])
         (ex_error_detection_pipe (doc_text (ex_nlp ex_text))).
Proof.
  eapply proj1.
  eapply (@correct_needs_aligned_spans ex_score ex_lookup ex_nlp
            ex_error_detection_pipe ex_char_span ex_lower ex_isdigit ex_parse
            ex_text).
  vm_compute. reflexivity.
Defined.

(** A span that is not aligned with the tokens: [_set_error_spans] stores
    nothing and raises, and [correct] fails there, not in [_valid_edit]. *)
Lemma correct_needs_aligned_spans_counterexample :
  ex_char_span (ex_nlp ex_text) 4 7 (lit "ERROR") = None /\
  _set_error_spans (fun _ => [mkEnt 4 7]) ex_char_span (ex_nlp ex_text)
    = Err ValueError /\
  (forall doc,
     _set_error_spans (fun _ => [mkEnt 4 7]) ex_char_span (ex_nlp ex_text)
       <> Ok doc) /\
  correct ex_score ex_lookup ex_nlp (fun _ => [mkEnt 4 7]) ex_char_span
    ex_lower ex_isdigit ex_parse ex_text = Err ValueError /\
  correct ex_score ex_lookup ex_nlp (fun _ => [mkEnt 4 7]) ex_char_span
    ex_lower ex_isdigit ex_parse ex_text <> Err AttributeError.
Proof.
  split; [vm_compute; reflexivity |].
  split; [vm_compute; reflexivity |].
  split; [intros doc N; vm_compute in N; discriminate N |].
  split; [vm_compute; reflexivity |].
  intros N. vm_compute in N. discriminate N.
Qed.




Lemma mask_replaced_everywhere_witness :
  (exists pre post,
     get_masked_text (ex_nlp ex_text_mask) (mkSpan 2 3) 5 =
       pre ++ MASK_TOKEN ++ lit " " ++ MASK_TOKEN ++ lit " " ++ post /\
     dict_get
       (_kenlm_rerank ex_score ex_lower
          (get_masked_text (ex_nlp ex_text_mask) (mkSpan 2 3) 5)
          [lit "lied"; lit "like"; lit "liek"]) (lit "like") =
       Ok (ex_score
             (ex_lower
                (replace MASK_TOKEN (lit "like") pre ++ lit "like" ++ lit " "
                 ++ lit "like" ++ lit " "
                 ++ replace MASK_TOKEN (lit "like") post)))) /\
  dict_get
    (_kenlm_rerank
       (fun s => if str_eqb s (lit "a like like b") then 7%Z else 0%Z)
       ex_lower (get_masked_text (ex_nlp ex_text_mask) (mkSpan 2 3) 5)
       [lit "lied"; lit "like"; lit "liek"]) (lit "like") = Ok 7%Z.
Proof.
  split.
  - destruct (@mask_replaced_everywhere ex_score ex_lower
                (ex_nlp ex_text_mask) (mkSpan 2 3) 1
                (mkToken (lit "<mask>") true)
                [lit "lied"; lit "like"; lit "liek"] (lit "like"))
      as (pre & post & E1 & E2 & _).
    + reflexivity.
    + vm_compute. reflexivity.
    + vm_compute. reflexivity.
    + right. left. reflexivity.
    + exists pre, post. split; assumption.
  - vm_compute. reflexivity.
Defined.

Lemma main_spec_witness :
  let out := main ex_tmp ex_run ex_file_of_path ex_linesep ex_args ex_world in
  w_files (fst out) (lit "/tmp/unlp.source.tok") = Some (lit "We liek cats
Fine
") /\
  map (hd []) (w_calls (fst out)) =
    [lit "errant_parallel"; lit "errant_compare"; lit "errant_compare"] /\
  snd out = Ok tt.
Proof.
  pose proof (@main_spec ex_tmp ex_run ex_file_of_path ex_linesep ex_args
                ex_world ex_m2) as H.
  cbv zeta in H. destruct H as (_ & _ & _ & H).
  - vm_compute. reflexivity.
  - intros N. vm_compute in N. discriminate N.
  - specialize (H 0%Z _ eq_refl). destruct H as (_ & H).
    specialize (H eq_refl 0%Z _ 0%Z _ eq_refl eq_refl).
    cbv zeta. rewrite H. vm_compute. auto.
Defined.

(** ** Runs of the model *)

Example top_candidate_prefers_best :
  top_candidate ex_score ex_lookup ex_lower (lit "We <mask> 5ive cats")
    (lit "liek") = Ok (lit "like").
Proof. vm_compute. reflexivity. Qed.

Example top_candidate_keeps_token_on_tie :
  top_candidate (fun _ => 0%Z) ex_lookup ex_lower (lit "We <mask> 5ive cats")
    (lit "liek") = Ok (lit "liek").
Proof. vm_compute. reflexivity. Qed.

Example kenlm_rerank_order :
  _kenlm_rerank ex_score ex_lower (lit "We <mask> 5ive cats")
    [lit "lied"; lit "like"; lit "liek"] =
  [(lit "like", (-3)%Z); (lit "lied", (-7)%Z); (lit "liek", (-9)%Z)].
Proof. vm_compute. reflexivity. Qed.

Example masked_text_at_start :
  get_masked_text (ex_nlp ex_text) (mkSpan 0 1) 5 = lit " <mask> liek 5ive cats".
Proof. vm_compute. reflexivity. Qed.

Example replace_every_occurrence :
  replace MASK_TOKEN (lit "x") (lit "<mask> <mask><mask") = lit "x x<mask".
Proof. vm_compute. reflexivity. Qed.

Example readlines_universal_newlines :
  readlines (lit "S a" ++ [13%N; 10%N] ++ lit "S b" ++ [13%N] ++ lit "c")
  = [lit "S a" ++ [10%N]; lit "S b" ++ [10%N]; lit "c"].
Proof. vm_compute. reflexivity. Qed.

Example valid_edit_geopolitical :
  _valid_edit ex_isdigit (ex_nlp (lit "in Kyiv")) (Some (mkSpan 1 2)) = Ok false.
Proof. vm_compute. reflexivity. Qed.

(** ** The further properties on the small instance *)

Lemma top_candidate_no_suggestion_witness :
  top_candidate ex_score ex_lookup ex_lower (lit "We like <mask>") (lit "cats")
    = Ok (lit "cats").
Proof.
  apply (@top_candidate_no_suggestion ex_score ex_lookup ex_lower).
  reflexivity.
Defined.

Lemma top_candidate_first_best_witness :
  getitem0
    (keys (_kenlm_rerank (fun _ => 0%Z) ex_lower (lit "We <mask> 5ive cats")
             (candidates_of ex_lookup (lit "liek")))) = Ok (lit "lied") /\
  top_candidate ex_score ex_lookup ex_lower (lit "We <mask> 5ive cats")
    (lit "liek") = Ok (lit "like").
Proof.
  split.
  - apply (@top_candidate_first_best (fun _ => 0%Z) ex_lookup ex_lower
             (lit "We <mask> 5ive cats") (lit "liek") (lit "lied")
             [] [lit "like"; lit "liek"]).
    + vm_compute. reflexivity.
    + intros k [].
    + intros k Hk. vm_compute. discriminate.
  - destruct (@top_candidate_first_best ex_score ex_lookup ex_lower
                (lit "We <mask> 5ive cats") (lit "liek") (lit "like")
                [lit "lied"] [lit "liek"]) as (_ & H).
    + vm_compute. reflexivity.
    + intros k [<- | []]. vm_compute. reflexivity.
    + intros k [<- | []]. vm_compute. discriminate.
    + rewrite H. vm_compute. reflexivity.
Defined.

Lemma masked_text_ignores_span_witness :
  get_masked_text (ex_nlp (lit "We liek 5ive cats")) (mkSpan 1 2) 5 =
  get_masked_text (ex_nlp (lit "We do not like 5ive cats")) (mkSpan 1 4) 5.
Proof.
  apply (@masked_text_ignores_span
           (ex_nlp (lit "We liek 5ive cats"))
           (ex_nlp (lit "We do not like 5ive cats"))
           (mkSpan 1 2) (mkSpan 1 4)
           [mkToken (lit "We") true]
           [mkToken (lit "liek") true]
           [mkToken (lit "do") true; mkToken (lit "not") true;
            mkToken (lit "like") true]
           [mkToken (lit "5ive") true; mkToken (lit "cats") false] 5);
    vm_compute; reflexivity.
Defined.

Lemma candidate_text_single_substitution_witness :
  (exists left_text right_text,
     get_masked_text (ex_nlp ex_text) (mkSpan 1 2) 5 =
       left_text ++ lit " " ++ MASK_TOKEN ++ lit " " ++ right_text /\
     dict_get
       (_kenlm_rerank ex_score ex_lower
          (get_masked_text (ex_nlp ex_text) (mkSpan 1 2) 5)
          [lit "lied"; lit "like"; lit "liek"]) (lit "like") =
       Ok (ex_score
             (ex_lower
                (left_text ++ lit " " ++ lit "like" ++ lit " "
                 ++ right_text)))) /\
  dict_get
    (_kenlm_rerank ex_score ex_lower
       (get_masked_text (ex_nlp ex_text) (mkSpan 1 2) 5)
       [lit "lied"; lit "like"; lit "liek"]) (lit "like") = Ok (-3)%Z.
Proof.
  split.
  - apply (@candidate_text_single_substitution ex_score ex_lower
             (ex_nlp ex_text) (mkSpan 1 2) 5
             [lit "lied"; lit "like"; lit "liek"] (lit "like")).
    + vm_compute. repeat constructor; intros N;
        repeat (destruct N as [N | N]; [discriminate N |]); exact N.
    + right. left. reflexivity.
  - vm_compute. reflexivity.
Defined.

Lemma valid_edit_first_token_witness :
  _valid_edit ex_isdigit (ex_nlp (lit "old Kyiv cats")) (Some (mkSpan 0 2))
    = Ok true.
Proof.
  rewrite (@valid_edit_first_token ex_isdigit (ex_nlp (lit "old Kyiv cats"))
             (mkSpan 0 2) (mkToken (lit "old") true)).
  - vm_compute. reflexivity.
  - vm_compute. reflexivity.
  - vm_compute. lia.
  - vm_compute. discriminate.
Defined.

Lemma correct_all_suppressed_witness :
  exists c,
    correct ex_score ex_lookup ex_nlp (fun _ => [mkEnt 8 12]) ex_char_span
      ex_lower ex_isdigit ex_parse ex_text = Ok c /\
    annotations c = [].
Proof.
  apply (@correct_all_suppressed ex_score ex_lookup ex_nlp
           (fun _ => [mkEnt 8 12]) ex_char_span ex_lower ex_isdigit ex_parse
           ex_text [mkSpan 2 3]).
  - reflexivity.
  - vm_compute. reflexivity.
  - repeat constructor; vm_compute; discriminate.
Defined.

Lemma correction_pipe_call_witness :
  (exists c (entries : list (option Span)),
     correct ex_score ex_lookup ex_nlp ex_error_detection_pipe ex_char_span
       ex_lower ex_isdigit ex_parse (doc_text ex_host_doc) = Ok c /\
     length entries = length (annotations c) /\
     (In None entries ->
      CorrectionPipe__call__ ex_score ex_lookup ex_nlp ex_error_detection_pipe
        ex_char_span ex_lower ex_isdigit ex_parse ex_host_doc
      = Err ValueError)) /\
  CorrectionPipe__call__ ex_score ex_lookup ex_nlp ex_error_detection_pipe
    ex_char_span ex_lower ex_isdigit ex_parse ex_host_doc = Err ValueError /\
  CorrectionPipe__call__ ex_score ex_lookup ex_nlp ex_error_detection_pipe
    ex_char_span ex_lower ex_isdigit ex_parse (ex_nlp ex_text)
  = Ok ({| tokens := tokens (ex_nlp ex_text);
           speliuk_errors :=
             [Some {| span_start := 1; span_end := 2;
                      span_label := lit "like" |}] |},
        lit "We like 5ive cats").
Proof.
  split; [| split; vm_compute; reflexivity].
  destruct (@correction_pipe_call ex_score ex_lookup ex_nlp
              ex_error_detection_pipe ex_char_span ex_lower ex_isdigit ex_parse
              ex_host_doc [mkSpan 1 2; mkSpan 2 3])
    as (c & entries & Hc & Hlen & _ & Hnone & _).
  - vm_compute. reflexivity.
  - vm_compute. reflexivity.
  - repeat constructor; vm_compute; discriminate.
  - vm_compute. reflexivity.
  - exists c, entries. repeat split; assumption.
Defined.

Lemma main_gold_is_source_witness :
  let args := {| corrected := lit "out.txt"; m2 := lit "/data/gold.m2" |} in
  let w := {| w_files := fun f =>
                           if str_eqb f (lit "/tmp/unlp.source.tok")
                           then Some ex_m2 else None;
              w_calls := []; w_stderr := [] |} in
  write_file
    (write_file (w_files w) (ex_alias_of_path (source_path ex_tmp)) [])
    (ex_alias_of_path (source_path ex_tmp)) []
    (ex_alias_of_path (m2 args)) = Some [] /\
  snd (main ex_tmp ex_run ex_alias_of_path ex_linesep args w) = Ok tt.
Proof.
  cbv zeta.
  pose proof (@main_gold_is_source ex_tmp ex_run ex_alias_of_path ex_linesep
                {| corrected := lit "out.txt"; m2 := lit "/data/gold.m2" |}
                {| w_files := fun f =>
                                if str_eqb f (lit "/tmp/unlp.source.tok")
                                then Some ex_m2 else None;
                   w_calls := []; w_stderr := [] |} ex_m2) as H.
  cbv zeta in H. destruct H as (H1 & _ & H2).
  - vm_compute. reflexivity.
  - vm_compute. reflexivity.
  - split; [exact H1 |].
    specialize (H2 0%Z _ eq_refl). destruct H2 as (_ & H2).
    apply (H2 eq_refl 0%Z _ 0%Z _ eq_refl eq_refl).
Defined.

Lemma source_file_round_trip_witness :
  exists w1 written,
    extract_source ex_tmp ex_file_of_path ex_linesep ex_args ex_world
      = (w1, Ok tt) /\
    main ex_tmp ex_run ex_file_of_path ex_linesep ex_args ex_world
      = align_and_score ex_tmp ex_run ex_args w1 /\
    w_files w1 (ex_file_of_path (source_path ex_tmp)) = Some written /\
    readlines written =
      map (skipn 2) (filter (startswith (lit "S ")) (readlines ex_m2)) /\
    length (readlines written) =
      length (filter (startswith (lit "S ")) (readlines ex_m2)).
Proof.
  apply (@source_file_round_trip ex_tmp ex_run ex_file_of_path ex_linesep
           ex_args ex_world ex_m2).
  - vm_compute. reflexivity.
  - intros N. vm_compute in N. discriminate N.
  - left. reflexivity.
  - right. left. vm_compute. reflexivity.
Defined.

Example is_person_name :
  _is_person {| grammemes := [lit "NOUN"; lit "anim"; lit "Name"] |} = true /\
  _is_person {| grammemes := [lit "NOUN"; lit "inan"] |} = false.
Proof. split; vm_compute; reflexivity. Qed.

Example main_without_gold_file :
  main ex_tmp ex_run ex_file_of_path ex_linesep ex_args
    {| w_files := fun _ => None; w_calls := []; w_stderr := [] |}
  = ({| w_files := fun _ => None; w_calls := []; w_stderr := [] |},
     Err FileNotFoundError).
Proof. reflexivity. Qed.

Example main_without_errant :
  snd (main ex_tmp (fun _ _ => None) ex_file_of_path ex_linesep ex_args
         ex_world) = Err FileNotFoundError /\
  w_calls (fst (main ex_tmp (fun _ _ => None) ex_file_of_path ex_linesep
                  ex_args ex_world)) = [] /\
  w_files (fst (main ex_tmp (fun _ _ => None) ex_file_of_path ex_linesep
                  ex_args ex_world)) (lit "/tmp/unlp.source.tok")
    = Some (lit "We liek cats
Fine
").
Proof. repeat split; vm_compute; reflexivity. Qed.
